(** * django-popularity: the view tracker of [popularity/models.py]

    A shallow embedding of [ViewTrackerManager] and [ViewTracker] over a
    small model of the part of the Django ORM they call: a table of rows,
    lazily built querysets (a WHERE tree, an ORDER BY list, extra SELECT
    columns), [get], [get_or_create] and [Model.save] with the
    [auto_now]/[auto_now_add] fields and the [unique_together] constraint.

    Conventions.
    - A [datetime] is an integer count of microseconds, a [timedelta] their
      difference.  Python integers are unbounded, so [views] is a [nat].
    - Every call of [datetime.now()] is an explicit argument of the
      operation that makes it.
    - Exceptions are values of [exn]; an operation on the table returns its
      outcome together with the table it leaves behind. *)

From Stdlib Require Import List ZArith Bool Arith Lia Ascii String Permutation Sorted.
From Stdlib Require Import DecimalString DecimalNat.
Import ListNotations.

Set Implicit Arguments.

(** ** Outcomes *)

Inductive exn : Type :=
| DoesNotExist
| MultipleObjectsReturned
| IntegrityError
| AssertionError
| AttributeError (name : string).

Inductive result (A : Type) : Type :=
| Ok (a : A)
| Raise (e : exn).

Arguments Ok {A} a.
Arguments Raise {A} e.

(** ** Rows of the [ViewTracker] table *)

Definition ContentType := nat.
Definition datetime := Z.
Definition timedelta := Z.

Record ViewTracker : Type := mkViewTracker {
  pk : nat;
  content_type : ContentType;
  object_id : nat;
  first_view : datetime;
  last_view : datetime;
  views : nat
}.

Definition Table := list ViewTracker.

(** The pair named by [unique_together = ('content_type', 'object_id')]. *)
Definition key (r : ViewTracker) : ContentType * nat :=
  (content_type r, object_id r).

Definition key_eqb (a b : ContentType * nat) : bool :=
  Nat.eqb (fst a) (fst b) && Nat.eqb (snd a) (snd b).

(** ** Querysets *)

Inductive lookup : Type :=
| content_type__exact (ct : ContentType)
| content_type__in (cts : list ContentType)
| object_id__exact (n : nat).

Inductive where_node : Type :=
| W_everything
| W_lookup (l : lookup)
| W_and (a b : where_node)
| W_or (a b : where_node).

Inductive field : Type := F_views | F_last_view | F_first_view.

Inductive order_term : Type :=
| Asc (f : field)
| Desc (f : field).

(** The SQL fragments handed to [extra(select=...)]. *)
Inductive sql_expr : Type :=
| Col (f : field)
| Lit (z : Z)
| Minus (a b : sql_expr).

Record QuerySet : Type := mkQuerySet {
  is_empty : bool;                          (* an EmptyQuerySet, from none() *)
  where_ : where_node;
  order_by_ : list order_term;              (* [] = no explicit order_by *)
  extra_select : list (string * sql_expr)
}.

Definition lookup_holds (l : lookup) (r : ViewTracker) : bool :=
  match l with
  | content_type__exact ct => Nat.eqb (content_type r) ct
  | content_type__in cts => existsb (Nat.eqb (content_type r)) cts
  | object_id__exact n => Nat.eqb (object_id r) n
  end.

Fixpoint where_holds (w : where_node) (r : ViewTracker) : bool :=
  match w with
  | W_everything => true
  | W_lookup l => lookup_holds l r
  | W_and a b => where_holds a r && where_holds b r
  | W_or a b => where_holds a r || where_holds b r
  end.

Definition field_value (f : field) (r : ViewTracker) : Z :=
  match f with
  | F_views => Z.of_nat (views r)
  | F_last_view => last_view r
  | F_first_view => first_view r
  end.

Fixpoint eval_expr (e : sql_expr) (r : ViewTracker) : Z :=
  match e with
  | Col f => field_value f r
  | Lit z => z
  | Minus a b => (eval_expr a r - eval_expr b r)%Z
  end.

(** *** ORDER BY *)

Definition field_of_name (s : string) : option field :=
  if String.eqb s "views" then Some F_views
  else if String.eqb s "last_view" then Some F_last_view
  else if String.eqb s "first_view" then Some F_first_view
  else None.

(** ['-name'] orders descending, ['name'] ascending. *)
Definition order_term_of_name (s : string) : option order_term :=
  match s with
  | String "-"%char rest => option_map Desc (field_of_name rest)
  | _ => option_map Asc (field_of_name s)
  end.

Fixpoint order_terms (names : list string) : list order_term :=
  match names with
  | [] => []
  | s :: rest =>
      match order_term_of_name s with
      | Some o => o :: order_terms rest
      | None => order_terms rest
      end
  end.

Definition term_compare (o : order_term) (a b : ViewTracker) : comparison :=
  match o with
  | Asc f => Z.compare (field_value f a) (field_value f b)
  | Desc f => Z.compare (field_value f b) (field_value f a)
  end.

Fixpoint compare_by (os : list order_term) (a b : ViewTracker) : comparison :=
  match os with
  | [] => Eq
  | o :: rest =>
      match term_compare o a b with
      | Eq => compare_by rest a b
      | c => c
      end
  end.

Definition before (os : list order_term) (a b : ViewTracker) : bool :=
  match compare_by os a b with
  | Gt => false
  | _ => true
  end.

(** The database's sort.  SQL leaves the order of rows that tie on every
    term open; here they keep the order of the table. *)
Fixpoint insert_sorted (os : list order_term) (x : ViewTracker)
    (l : list ViewTracker) : list ViewTracker :=
  match l with
  | [] => [x]
  | y :: rest =>
      if before os x y then x :: y :: rest
      else y :: insert_sorted os x rest
  end.

Fixpoint sort_rows (os : list order_term) (l : list ViewTracker)
    : list ViewTracker :=
  match l with
  | [] => []
  | x :: rest => insert_sorted os x (sort_rows os rest)
  end.

(** *** [class Meta] *)

Definition Meta_ordering_names : list string :=
  ["views"; "-last_view"; "first_view"]%string.

Definition Meta_ordering : list order_term :=
  Eval cbv in order_terms Meta_ordering_names.

Definition Meta_unique_together (r1 r2 : ViewTracker) : bool :=
  key_eqb (key r1) (key r2).

(** *** Evaluating a queryset *)

Definition effective_ordering (qs : QuerySet) : list order_term :=
  match order_by_ qs with
  | [] => Meta_ordering
  | os => os
  end.

Definition rows (qs : QuerySet) (table : Table) : list ViewTracker :=
  if is_empty qs then []
  else sort_rows (effective_ordering qs) (filter (where_holds (where_ qs)) table).

Definition annotate (qs : QuerySet) (r : ViewTracker) : list (string * Z) :=
  map (fun ne => (fst ne, eval_expr (snd ne) r)) (extra_select qs).

(** Each fetched object with the extra attributes the query selects. *)
Definition fetch (qs : QuerySet) (table : Table)
    : list (ViewTracker * list (string * Z)) :=
  map (fun r => (r, annotate qs r)) (rows qs table).

(** The same under a database that reads [-] between a timestamp column
    and a quoted timestamp as [minus]: their exact difference on some
    databases, another number on others.  [eval_expr] is the reading
    [Z.sub]. *)
Fixpoint eval_expr_on (minus : Z -> Z -> Z) (e : sql_expr) (r : ViewTracker) : Z :=
  match e with
  | Col f => field_value f r
  | Lit z => z
  | Minus a b => minus (eval_expr_on minus a r) (eval_expr_on minus b r)
  end.

Definition fetch_on (minus : Z -> Z -> Z) (qs : QuerySet) (table : Table)
    : list (ViewTracker * list (string * Z)) :=
  map (fun r => (r, map (fun ne => (fst ne, eval_expr_on minus (snd ne) r))
                        (extra_select qs)))
      (rows qs table).

(** Slicing, [qs[:k]]: the ORM's way of limiting a query. *)
Definition slice (qs : QuerySet) (k : nat) (table : Table) : list ViewTracker :=
  firstn k (rows qs table).

(** *** The queryset methods the manager calls *)

Definition get_query_set : QuerySet :=
  {| is_empty := false; where_ := W_everything;
     order_by_ := []; extra_select := [] |}.

Fixpoint conjunction (kwargs : list lookup) : where_node :=
  match kwargs with
  | [] => W_everything
  | [l] => W_lookup l
  | l :: rest => W_and (W_lookup l) (conjunction rest)
  end.

Definition filter_ (kwargs : list lookup) (qs : QuerySet) : QuerySet :=
  {| is_empty := is_empty qs;
     where_ := W_and (where_ qs) (conjunction kwargs);
     order_by_ := order_by_ qs;
     extra_select := extra_select qs |}.

(** [order_by] with field names, for the calls that name at least one. *)
Definition order_by (names : list string) (qs : QuerySet) : QuerySet :=
  {| is_empty := is_empty qs;
     where_ := where_ qs;
     order_by_ := order_terms names;
     extra_select := extra_select qs |}.

Definition extra (select : list (string * sql_expr)) (qs : QuerySet) : QuerySet :=
  {| is_empty := is_empty qs;
     where_ := where_ qs;
     order_by_ := order_by_ qs;
     extra_select := extra_select qs ++ select |}.

Definition none (qs : QuerySet) : QuerySet :=
  {| is_empty := true;
     where_ := where_ qs;
     order_by_ := order_by_ qs;
     extra_select := extra_select qs |}.

(** [a | b]: an EmptyQuerySet on either side yields the other side; two
    proper querysets are combined into one query whose WHERE is the OR of
    theirs, ordered as the right one when it has an explicit order. *)
Definition qs_or (a b : QuerySet) : QuerySet :=
  if is_empty a then b
  else if is_empty b then a
  else {| is_empty := false;
          where_ := W_or (where_ a) (where_ b);
          order_by_ := match order_by_ b with [] => order_by_ a | os => os end;
          extra_select := extra_select a ++ extra_select b |}.

(** The public methods of [django.db.models.query.QuerySet]; looking up
    any other attribute raises [AttributeError]. *)
Definition QuerySet_methods : list string :=
  ["iterator"; "count"; "get"; "create"; "get_or_create"; "latest";
   "in_bulk"; "delete"; "update"; "exists"; "values"; "values_list";
   "dates"; "none"; "all"; "filter"; "exclude"; "complex_filter";
   "select_related"; "dup_select_related"; "order_by"; "distinct";
   "extra"; "reverse"; "defer"; "only"; "using"]%string.

Definition QuerySet_hasattr (name : string) : bool :=
  existsb (String.eqb name) QuerySet_methods.

(** ** Statements against the table *)

(** An operation on the table: its outcome and the table afterwards.  A
    statement that raises leaves the table as it found it. *)
Definition db (A : Type) : Type := Table -> result A * Table.

Definition ret {A : Type} (a : A) : db A := fun table => (Ok a, table).

Definition raise {A : Type} (e : exn) : db A := fun table => (Raise e, table).

Definition bind {A B : Type} (m : db A) (k : A -> db B) : db B :=
  fun table =>
    match m table with
    | (Ok a, table') => k a table'
    | (Raise e, table') => (Raise e, table')
    end.

(** [try: m except e: h] *)
Definition try_except {A : Type} (m : db A) (handles : exn -> bool) (h : db A)
    : db A :=
  fun table =>
    match m table with
    | (Raise e, table') => if handles e then h table' else (Raise e, table')
    | done => done
    end.

Notation "x <- m ;; k" := (bind m (fun x => k))
  (at level 61, m at next level, right associativity).

Definition is_DoesNotExist (e : exn) : bool :=
  match e with DoesNotExist => true | _ => false end.

Definition is_IntegrityError (e : exn) : bool :=
  match e with IntegrityError => true | _ => false end.

(** [QuerySet.get] with keyword lookups: the one row the lookups select. *)
Definition get (kwargs : list lookup) : db ViewTracker :=
  fun table =>
    match rows (filter_ kwargs get_query_set) table with
    | [] => (Raise DoesNotExist, table)
    | [r] => (Ok r, table)
    | _ => (Raise MultipleObjectsReturned, table)
    end.

(** The primary key an INSERT hands out: one past the largest in use. *)
Definition next_pk (table : Table) : nat :=
  S (fold_right Nat.max 0 (map pk table)).

(** Does a row other than the one with primary key [self_pk] hold the same
    [unique_together] pair as [r]? *)
Definition violates_unique (self_pk : nat) (r : ViewTracker) (table : Table) : bool :=
  existsb (fun r' => negb (Nat.eqb (pk r') self_pk) && Meta_unique_together r' r)
          table.

Definition with_pk (n : nat) (r : ViewTracker) : ViewTracker :=
  mkViewTracker n (content_type r) (object_id r)
                (first_view r) (last_view r) (views r).

Definition with_last_view (t : datetime) (r : ViewTracker) : ViewTracker :=
  mkViewTracker (pk r) (content_type r) (object_id r)
                (first_view r) t (views r).

Definition with_first_view (t : datetime) (r : ViewTracker) : ViewTracker :=
  mkViewTracker (pk r) (content_type r) (object_id r)
                t (last_view r) (views r).

Definition with_views (n : nat) (r : ViewTracker) : ViewTracker :=
  mkViewTracker (pk r) (content_type r) (object_id r)
                (first_view r) (last_view r) n.

(** INSERT of [r] under the primary key [n]. *)
Definition sql_insert (n : nat) (r : ViewTracker) : db ViewTracker :=
  fun table =>
    if violates_unique n r table then (Raise IntegrityError, table)
    else (Ok (with_pk n r), table ++ [with_pk n r]).

(** UPDATE of every column of the row whose primary key is [pk r]. *)
Definition sql_update (r : ViewTracker) : db ViewTracker :=
  fun table =>
    if violates_unique (pk r) r table then (Raise IntegrityError, table)
    else (Ok r, map (fun r' => if Nat.eqb (pk r') (pk r) then r else r') table).

(** [Model.save()] of an object with no primary key yet: an INSERT, with
    [first_view] (auto_now_add) and [last_view] (auto_now) set to now. *)
Definition save_new (self : ViewTracker) (now : datetime) : db ViewTracker :=
  fun table =>
    sql_insert (next_pk table)
               (with_last_view now (with_first_view now self)) table.

(** [Model.save()] of an object that has a primary key: an UPDATE of all
    columns when a row with that key exists, an INSERT otherwise;
    [last_view] (auto_now) is set to now either way, [first_view]
    (auto_now_add) only by the INSERT. *)
Definition save (self : ViewTracker) (now : datetime) : db ViewTracker :=
  fun table =>
    if existsb (fun r' => Nat.eqb (pk r') (pk self)) table
    then sql_update (with_last_view now self) table
    else sql_insert (pk self)
                    (with_last_view now (with_first_view now self)) table.

(** [ViewTracker(content_type=ct, object_id=n)]: [views] takes its
    default, 0; the two dates are filled in by [save]. *)
Definition new_ViewTracker (ct : ContentType) (n : nat) : ViewTracker :=
  mkViewTracker 0 ct n 0%Z 0%Z 0.

(** [QuerySet.get_or_create(content_type=ct, object_id=n)]. *)
Definition get_or_create (ct : ContentType) (n : nat) (now : datetime)
    : db (ViewTracker * bool) :=
  let kwargs := [content_type__exact ct; object_id__exact n] in
  try_except
    (obj <- get kwargs ;; ret (obj, false))
    is_DoesNotExist
    (try_except
       (obj <- save_new (new_ViewTracker ct n) now ;; ret (obj, true))
       is_IntegrityError
       (obj <- get kwargs ;; ret (obj, false))).

(** ** A site to try the models on: blog entries and their comments *)

Inductive SiteModel : Type := Entry | Comment.

Definition site_content_type (model : SiteModel) : ContentType :=
  match model with
  | Entry => 1
  | Comment => 2
  end.

(** ** The models *)

Section Models.

(** The classes of the tracked objects and the content-type registry,
    [ContentType.objects.get_for_model], which the surrounding application
    supplies. *)
Variable Model : Type.
Variable ContentType_get_for_model : Model -> ContentType.

(** A tracked object: its class and its primary key. *)
Record Object : Type := mkObject {
  class_ : Model;
  object_pk : nat
}.

(** The (type, id) pair an object is tracked under. *)
Definition ref (o : Object) : ContentType * nat :=
  (ContentType_get_for_model (class_ o), object_pk o).

(** *** [ViewTrackerManager] *)

Definition select_age (refdate : option datetime) (now : datetime) : QuerySet :=
  let refdate :=
    match refdate with
    | None => now
    | Some d => d
    end in
  let select_string := Minus (Col F_first_view) (Lit refdate) in
  extra [("age"%string, select_string)] get_query_set.

(** [order_by] answers a QuerySet, and a QuerySet has no attribute
    [limit]: the attribute lookup raises before anything is called. *)
Definition get_recently_viewed (limit : nat) (table : Table)
    : result (list ViewTracker) :=
  let qs := order_by ["-last_view"%string] get_query_set in
  if QuerySet_hasattr "limit" then Ok (slice qs limit table)
  else Raise (AttributeError "limit").

Definition get_for_models (models : list Model) : QuerySet :=
  let cts := fold_left (fun cts model => cts ++ [ContentType_get_for_model model])
                       models [] in
  filter_ [content_type__in cts] get_query_set.

Definition get_for_model (model : Model) : QuerySet :=
  get_for_models [model].

Definition get_for_object (content_object : Object) (create : bool)
    (now : datetime) : db ViewTracker :=
  let ct := ContentType_get_for_model (class_ content_object) in
  if create then
    vc <- get_or_create ct (object_pk content_object) now ;;
    ret (fst vc)
  else
    get [content_type__exact ct; object_id__exact (object_pk content_object)].

Definition get_for_objects (objects : list Object) : QuerySet :=
  fold_left
    (fun qs obj =>
       let ct := ContentType_get_for_model (class_ obj) in
       qs_or qs (filter_ [content_type__exact ct; object_id__exact (object_pk obj)]
                         get_query_set))
    objects (none get_query_set).

(** *** [ViewTracker] *)


Definition increment (self : ViewTracker) (now : datetime) : db ViewTracker :=
  save (with_views (views self + 1) self) now.

Definition get_age (self : ViewTracker) (refdate : option datetime)
    (now : datetime) : result timedelta :=
  let refdate :=
    match refdate with
    | None => now
    | Some d => d
    end in
  if (first_view self <=? refdate)%Z then Ok (refdate - first_view self)%Z
  else Raise AssertionError.

(** [t_create] is the clock as [get_or_create] reads it, [t_save] as the
    [save] inside [increment] does. *)
Definition add_view_for (content_object : Object) (t_create t_save : datetime)
    : db ViewTracker :=
  viewtracker <- get_for_object content_object true t_create ;;
  increment viewtracker t_save.

Definition get_views_for (content_object : Object) : db nat :=
  let ct := ContentType_get_for_model (class_ content_object) in
  try_except
    (viewtracker <- get_for_object content_object false 0%Z ;;
     ret (views viewtracker))
    is_DoesNotExist
    (ret 0).

(** ** Calls in sequence, and calls that overlap *)

(** [add_view_for] called once per reading of the clock, one call after
    the other: the outcome of every call and the table at the end. *)
Fixpoint add_views_for (o : Object) (clock : list (datetime * datetime))
    (table : Table) : list (result ViewTracker) * Table :=
  match clock with
  | [] => ([], table)
  | (t_create, t_save) :: rest =>
      let (out, table') := add_view_for o t_create t_save table in
      let (outs, table'') := add_views_for o rest table' in
      (out :: outs, table'')
  end.

(** The view count a call of [add_view_for] answered with. *)
Definition counted (out : result ViewTracker) : option nat :=
  match out with
  | Ok r => Some (views r)
  | Raise _ => None
  end.

(** A call into the module.  The queries of the manager build querysets
    and read the table through [rows]; they have no table to leave behind
    and so are no calls here. *)
Inductive call : Type :=
| call_get_for_object (o : Object) (create : bool) (now : datetime)
| call_add_view_for (o : Object) (t_create t_save : datetime)
| call_increment (self : ViewTracker) (now : datetime)
| call_get_views_for (o : Object).

(** The table a call leaves behind. *)
Definition table_after (c : call) (table : Table) : Table :=
  match c with
  | call_get_for_object o create now => snd (get_for_object o create now table)
  | call_add_view_for o t_create t_save => snd (add_view_for o t_create t_save table)
  | call_increment self now => snd (increment self now table)
  | call_get_views_for o => snd (get_views_for o table)
  end.

(** The table after a sequence of calls on an empty one. *)
Definition history (calls : list call) : Table :=
  fold_left (fun table c => table_after c table) calls [].

(** A call of [add_view_for] makes two round trips to the table: the
    [get_or_create] inside [get_for_object], and the [save] inside
    [increment], which writes back the [views] it read, plus one.  Between
    the two, other calls may run.  Where one call stands: *)
Inductive request : Type :=
| Start                                  (* not begun *)
| Loaded (viewtracker : ViewTracker)     (* holds its record; increment is due *)
| Finished (out : result ViewTracker).   (* returned or raised *)

(** The next round trip of one call, at clock reading [now]. *)
Definition advance (o : Object) (now : datetime) (rq : request) (table : Table)
    : request * Table :=
  match rq with
  | Start =>
      match get_for_object o true now table with
      | (Ok viewtracker, table') => (Loaded viewtracker, table')
      | (Raise e, table') => (Finished (Raise e), table')
      end
  | Loaded viewtracker =>
      let (out, table') := increment viewtracker now table in
      (Finished out, table')
  | Finished out => (Finished out, table)
  end.

(** [l] with its [i]-th element replaced by [x]. *)
Fixpoint replace_nth {A : Type} (i : nat) (x : A) (l : list A) : list A :=
  match l, i with
  | [], _ => []
  | _ :: rest, 0 => x :: rest
  | y :: rest, S j => y :: replace_nth j x rest
  end.

(** A schedule names, step by step, the call that makes its next round
    trip and the clock reading it sees. *)
Definition step (o : Object) (st : list request * Table) (ev : nat * datetime)
    : list request * Table :=
  match nth_error (fst st) (fst ev) with
  | None => st
  | Some rq =>
      let (rq', table') := advance o (snd ev) rq (snd st) in
      (replace_nth (fst ev) rq' (fst st), table')
  end.

(** The calls and the table after a whole schedule. *)
Definition interleave (o : Object) (schedule : list (nat * datetime))
    (st : list request * Table) : list request * Table :=
  fold_left (step o) schedule st.

(** The schedule that lets call [i], then call [i + 1], and so on, make
    both its round trips before the next begins. *)
Fixpoint serial (i : nat) (clock : list (datetime * datetime))
    : list (nat * datetime) :=
  match clock with
  | [] => []
  | (t_create, t_save) :: rest =>
      (i, t_create) :: (i, t_save) :: serial (S i) rest
  end.

(** * Vocabulary of the properties *)

(** The integer an order term sorts a row by. *)
Definition term_key (o : order_term) (r : ViewTracker) : Z :=
  match o with
  | Asc f => field_value f r
  | Desc f => (- field_value f r)%Z
  end.

(** The order of [Meta.ordering] in words: fewer views first; among equal
    views the later [last_view] first; among those the earlier
    [first_view] first. *)
Definition popularity_le (a b : ViewTracker) : Prop :=
  views a < views b \/
  (views a = views b /\
   ((last_view b < last_view a)%Z \/
    (last_view a = last_view b /\ (first_view a <= first_view b)%Z))).

(** The rows a queryset lets through, before they are ordered. *)
Definition selects (qs : QuerySet) (r : ViewTracker) : bool :=
  negb (is_empty qs) && where_holds (where_ qs) r.

(** Does [r] belong to one of [objects]? *)
Definition tracks_any (objects : list Object) (r : ViewTracker) : bool :=
  existsb (fun o => key_eqb (key r) (ref o)) objects.

(** One turn of the loop of [get_for_objects]. *)
Definition or_filter (qs : QuerySet) (obj : Object) : QuerySet :=
  qs_or qs (filter_ [content_type__exact (ContentType_get_for_model (class_ obj));
                     object_id__exact (object_pk obj)] get_query_set).

(** The rows stored under the pair [k]. *)
Definition stored_under (k : ContentType * nat) (table : Table) : list ViewTracker :=
  filter (fun r => key_eqb (key r) k) table.

(** The rows stored under the primary key [n]. *)
Definition stored_at (n : nat) (table : Table) : list ViewTracker :=
  filter (fun r => Nat.eqb (pk r) n) table.

(** The [unique_together] constraint, as a property of a table. *)
Definition unique_together (table : Table) : Prop :=
  NoDup (map key table).

(** The primary-key constraint. *)
Definition unique_pk (table : Table) : Prop :=
  NoDup (map pk table).

(** [r] is the one row stored under the pair [k], and the one row stored
    under its own primary key. *)
Definition sole (k : ContentType * nat) (r : ViewTracker) (table : Table) : Prop :=
  stored_under k table = [r] /\ stored_at (pk r) table = [r].

(** The two constraints of the table: primary keys differ, and so do the
    [unique_together] pairs. *)
Definition constrained (table : Table) : Prop :=
  unique_pk table /\ unique_together table.

(** Is the call through, and did it return a record? *)
Definition finished (rq : request) : bool :=
  match rq with
  | Finished _ => true
  | _ => false
  end.

Definition returned (rq : request) : bool :=
  match rq with
  | Finished (Ok _) => true
  | _ => false
  end.

(** How many calls are through. *)
Definition done (rqs : list request) : nat :=
  List.length (filter finished rqs).

(** What a call in flight may hold while [r] is the row of the pair [k],
    the row counted [b] views before any call began and [d] calls are
    through: a record read from that row, counting at least [b] views and
    no more than [b] and the calls that are through. *)
Definition in_step (k : ContentType * nat) (r : ViewTracker) (b d : nat)
    (rq : request) : Prop :=
  match rq with
  | Start => True
  | Loaded v => pk v = pk r /\ key v = k /\ b <= views v /\ views v <= b + d
  | Finished (Ok _) => True
  | Finished (Raise _) => False
  end.

(** What every schedule keeps, for calls that began on a table counting
    [b] views for the object: either nothing has begun and no row is
    stored for the object, or one row is, counting at least [b] views, one
    more at least once a call is through, and never more than [b] and the
    calls that are through. *)
Definition race_invariant (o : Object) (b : nat) (st : list request * Table)
    : Prop :=
  (b = 0 /\ stored_under (ref o) (snd st) = [] /\
   Forall (fun rq => rq = Start) (fst st)) \/
  (exists r, sole (ref o) r (snd st) /\
             b <= views r /\
             views r <= b + done (fst st) /\
             (1 <= done (fst st) -> b + 1 <= views r) /\
             Forall (in_step (ref o) r b (done (fst st))) (fst st)).

(** The views counted under the pair [k]. *)
Definition count_of (k : ContentType * nat) (table : Table) : nat :=
  list_sum (map views (stored_under k table)).

(** Is [c] a call of [add_view_for] for the object tracked under [k]? *)
Definition views_object (k : ContentType * nat) (c : call) : bool :=
  match c with
  | call_add_view_for o' _ _ => key_eqb (ref o') k
  | _ => false
  end.

(** Is [c] a call through the class methods and the manager, and not one
    of [increment] on an object the caller holds? *)
Definition through_class (c : call) : bool :=
  match c with
  | call_increment _ _ => false
  | _ => true
  end.

(** * Properties *)

Unset Implicit Arguments.

(** ** Sorting *)

Lemma term_compare_key (o : order_term) (a b : ViewTracker) :
  term_compare o a b = Z.compare (term_key o a) (term_key o b).
Proof.
  destruct o as [f|f]; simpl; [reflexivity|].
  now rewrite Z.compare_opp.
Qed.

Lemma compare_by_antisym (os : list order_term) (a b : ViewTracker) :
  compare_by os b a = CompOpp (compare_by os a b).
Proof.
  induction os as [|o os IH]; simpl; [reflexivity|].
  rewrite !term_compare_key, (Z.compare_antisym (term_key o a) (term_key o b)).
  destruct (term_key o a ?= term_key o b)%Z; simpl; auto.
Qed.

Lemma compare_by_trans (os : list order_term) (a b c : ViewTracker) :
  compare_by os a b <> Gt -> compare_by os b c <> Gt -> compare_by os a c <> Gt.
Proof.
  induction os as [|o os IH]; simpl; [congruence|].
  rewrite !term_compare_key.
  destruct (Z.compare_spec (term_key o a) (term_key o b)),
           (Z.compare_spec (term_key o b) (term_key o c)),
           (Z.compare_spec (term_key o a) (term_key o c));
    try congruence; try lia; auto.
Qed.

Lemma before_total (os : list order_term) (a b : ViewTracker) :
  before os a b = false -> before os b a = true.
Proof.
  unfold before. rewrite (compare_by_antisym os a b).
  destruct (compare_by os a b); simpl; congruence.
Qed.

Lemma before_trans (os : list order_term) (a b c : ViewTracker) :
  before os a b = true -> before os b c = true -> before os a c = true.
Proof.
  unfold before. intros Hab Hbc.
  assert (compare_by os a c <> Gt) as H.
  { apply compare_by_trans with b.
    - destruct (compare_by os a b); congruence.
    - destruct (compare_by os b c); congruence. }
  destruct (compare_by os a c); congruence.
Qed.

Lemma insert_sorted_perm (os : list order_term) (x : ViewTracker) (l : list ViewTracker) :
  Permutation (x :: l) (insert_sorted os x l).
Proof.
  induction l as [|y l IH]; simpl; [reflexivity|].
  destruct (before os x y); [reflexivity|].
  rewrite perm_swap. now apply perm_skip.
Qed.

Lemma sort_rows_perm (os : list order_term) (l : list ViewTracker) :
  Permutation l (sort_rows os l).
Proof.
  induction l as [|x l IH]; simpl; [reflexivity|].
  rewrite <- insert_sorted_perm. now apply perm_skip.
Qed.

Lemma sort_rows_In (os : list order_term) (l : list ViewTracker) (r : ViewTracker) :
  In r (sort_rows os l) <-> In r l.
Proof.
  split; apply Permutation_in; [symmetry|]; apply sort_rows_perm.
Qed.

Lemma insert_sorted_sorted (os : list order_term) (x : ViewTracker) (l : list ViewTracker) :
  StronglySorted (fun a b => before os a b = true) l ->
  StronglySorted (fun a b => before os a b = true) (insert_sorted os x l).
Proof.
  induction 1 as [|y l Hl IH Hy]; simpl.
  - constructor; constructor.
  - destruct (before os x y) eqn:Hxy.
    + constructor; [constructor; assumption|].
      constructor; [assumption|].
      eapply Forall_impl; [|exact Hy].
      intros z Hz. now apply before_trans with y.
    + constructor; [assumption|].
      apply (Permutation_Forall (insert_sorted_perm os x l)).
      constructor; [now apply before_total | assumption].
Qed.

Lemma sort_rows_sorted (os : list order_term) (l : list ViewTracker) :
  StronglySorted (fun a b => before os a b = true) (sort_rows os l).
Proof.
  induction l as [|x l IH]; simpl; [constructor|].
  now apply insert_sorted_sorted.
Qed.

Lemma sort_rows_single (os : list order_term) (l : list ViewTracker) :
  (List.length l <= 1)%nat -> sort_rows os l = l.
Proof.
  destruct l as [|x [|y l]]; simpl; try reflexivity; lia.
Qed.

Lemma before_Meta_ordering (a b : ViewTracker) :
  before Meta_ordering a b = true <-> popularity_le a b.
Proof.
  unfold before, Meta_ordering, popularity_le; simpl.
  destruct (Z.compare_spec (Z.of_nat (views a)) (Z.of_nat (views b)));
  destruct (Z.compare_spec (last_view b) (last_view a));
  destruct (Z.compare_spec (first_view a) (first_view b));
    split; intros; try reflexivity; try discriminate; try lia.
Qed.

Lemma sorted_popularity (l : list ViewTracker) :
  StronglySorted popularity_le (sort_rows Meta_ordering l).
Proof.
  pose proof (sort_rows_sorted Meta_ordering l) as H.
  induction H as [|x l' Hl IH Hx]; constructor; [assumption|].
  eapply Forall_impl; [|exact Hx].
  intros y Hy. now apply before_Meta_ordering.
Qed.

(** ** What a queryset selects *)

Lemma filter_nothing (A : Type) (l : list A) :
  filter (fun _ => false) l = [].
Proof.
  induction l; simpl; auto.
Qed.

Lemma filter_everything (A : Type) (l : list A) :
  filter (fun _ => true) l = l.
Proof.
  induction l; simpl; congruence.
Qed.

Lemma rows_selects (qs : QuerySet) (table : Table) :
  rows qs table = sort_rows (effective_ordering qs) (filter (selects qs) table).
Proof.
  unfold rows, selects. destruct (is_empty qs); simpl.
  - now rewrite filter_nothing.
  - reflexivity.
Qed.

Lemma selects_qs_or (a b : QuerySet) (r : ViewTracker) :
  selects (qs_or a b) r = selects a r || selects b r.
Proof.
  unfold qs_or, selects.
  destruct (is_empty a) eqn:Ha; simpl; [reflexivity|].
  destruct (is_empty b) eqn:Hb; simpl.
  - rewrite Ha. simpl. now rewrite orb_false_r.
  - reflexivity.
Qed.

Lemma order_by_qs_or (a b : QuerySet) :
  order_by_ a = [] -> order_by_ b = [] -> order_by_ (qs_or a b) = [].
Proof.
  unfold qs_or. intros Ha Hb.
  destruct (is_empty a); [assumption|].
  destruct (is_empty b); [assumption|].
  simpl. now rewrite Hb.
Qed.

Lemma rows_default_sorted (qs : QuerySet) (table : Table) :
  order_by_ qs = [] -> StronglySorted popularity_le (rows qs table).
Proof.
  intros H. rewrite rows_selects. unfold effective_ordering. rewrite H.
  apply sorted_popularity.
Qed.

Lemma rows_perm (qs : QuerySet) (table : Table) :
  Permutation (rows qs table) (filter (selects qs) table).
Proof.
  rewrite rows_selects. symmetry. apply sort_rows_perm.
Qed.

Lemma rows_In (qs : QuerySet) (table : Table) (r : ViewTracker) :
  In r (rows qs table) <-> In r table /\ selects qs r = true.
Proof.
  rewrite rows_selects, sort_rows_In. apply filter_In.
Qed.

Lemma key_eqb_eq (a b : ContentType * nat) :
  key_eqb a b = true <-> a = b.
Proof.
  destruct a as [a1 a2], b as [b1 b2]. unfold key_eqb; simpl.
  rewrite andb_true_iff, !Nat.eqb_eq. split.
  - intros [-> ->]. reflexivity.
  - intros H. inversion H. auto.
Qed.

(** The WHERE clause of [filter(content_type=ct, object_id=n)]. *)
Lemma selects_key (ct : ContentType) (n : nat) (r : ViewTracker) :
  selects (filter_ [content_type__exact ct; object_id__exact n] get_query_set) r
  = key_eqb (key r) (ct, n).
Proof.
  reflexivity.
Qed.

Lemma get_for_objects_fold (objects : list Object) (acc : QuerySet) (r : ViewTracker) :
  selects (fold_left or_filter objects acc) r = selects acc r || tracks_any objects r.
Proof.
  revert acc. induction objects as [|o objects IH]; intros acc; simpl.
  - now rewrite orb_false_r.
  - rewrite IH. unfold or_filter. rewrite selects_qs_or, selects_key.
    unfold ref. now rewrite orb_assoc.
Qed.

Lemma get_for_objects_fold_order (objects : list Object) (acc : QuerySet) :
  order_by_ acc = [] -> order_by_ (fold_left or_filter objects acc) = [].
Proof.
  revert acc. induction objects as [|o objects IH]; intros acc H; simpl; auto.
  apply IH. unfold or_filter. now apply order_by_qs_or.
Qed.

Lemma selects_get_for_objects (objects : list Object) (r : ViewTracker) :
  selects (get_for_objects objects) r = tracks_any objects r.
Proof.
  unfold get_for_objects.
  change (selects (fold_left or_filter objects (none get_query_set)) r
          = tracks_any objects r).
  now rewrite get_for_objects_fold.
Qed.

Lemma order_by_get_for_objects (objects : list Object) :
  order_by_ (get_for_objects objects) = [].
Proof.
  unfold get_for_objects.
  change (order_by_ (fold_left or_filter objects (none get_query_set)) = []).
  now apply get_for_objects_fold_order.
Qed.

Lemma content_types_fold (models : list Model) (acc : list ContentType) :
  fold_left (fun cts model => cts ++ [ContentType_get_for_model model]) models acc
  = acc ++ map ContentType_get_for_model models.
Proof.
  revert acc. induction models as [|m models IH]; intros acc; simpl.
  - now rewrite app_nil_r.
  - rewrite IH, <- app_assoc. reflexivity.
Qed.

Lemma selects_get_for_models (models : list Model) (r : ViewTracker) :
  selects (get_for_models models) r
  = existsb (Nat.eqb (content_type r)) (map ContentType_get_for_model models).
Proof.
  unfold get_for_models. rewrite content_types_fold. reflexivity.
Qed.

Lemma sorted_perm_unique (A : Type) (R : A -> A -> Prop) (l l' : list A) :
  StronglySorted R l -> StronglySorted R l' -> Permutation l l' ->
  (forall x y, In x l -> In y l -> R x y -> R y x -> x = y) ->
  l = l'.
Proof.
  intros Hl. revert l'.
  induction Hl as [|x t Ht IH Hx]; intros l' Hl' Hp Hanti.
  - now apply Permutation_nil in Hp.
  - destruct Hl' as [|y t' Ht' Hy].
    + symmetry in Hp. now apply Permutation_nil in Hp.
    + assert (x = y) as Hxy.
      { assert (In x (y :: t')) as Hin
          by (apply (Permutation_in _ Hp); now left).
        assert (In y (x :: t)) as Hin'
          by (apply (Permutation_in _ (Permutation_sym Hp)); now left).
        destruct Hin as [Hin|Hin]; [now symmetry|].
        destruct Hin' as [Hin'|Hin']; [assumption|].
        rewrite Forall_forall in Hx, Hy.
        apply Hanti; [now left | now right | now apply Hx | now apply Hy]. }
      subst y. f_equal.
      apply IH; [assumption | now apply Permutation_cons_inv in Hp |].
      intros a b Ha Hb. apply Hanti; now right.
Qed.

(** ** The manager's queries *)

(** The [age] that [select_age] selects is [first_view - refdate] for
    every record, the difference taken the other way round than [get_age]
    takes it. *)
Lemma select_age_annotation (refdate : option datetime) (now : datetime)
    (table : Table) :
  fetch (select_age refdate now) table
  = map (fun r => (r, [("age"%string,
                        (first_view r - match refdate with
                                        | None => now
                                        | Some d => d
                                        end)%Z)]))
        (sort_rows Meta_ordering table).
Proof.
  unfold fetch, rows, select_age, annotate; simpl.
  now rewrite filter_everything.
Qed.

(** Whatever the table and the limit, [get_recently_viewed] raises
    [AttributeError] for [limit] and returns no records. *)
Lemma get_recently_viewed_raises (limit : nat) (table : Table) :
  get_recently_viewed limit table = Raise (AttributeError "limit").
Proof.
  reflexivity.
Qed.

(** What the method is after, written with a slice: the rows by
    descending [last_view], cut to the first [limit]. *)
Lemma slice_recent (limit : nat) (table : Table) :
  slice (order_by ["-last_view"%string] get_query_set) limit table
  = firstn limit (sort_rows [Desc F_last_view] table) /\
  StronglySorted (fun a b => (last_view b <= last_view a)%Z)
                 (sort_rows [Desc F_last_view] table).
Proof.
  split.
  - unfold slice, rows; simpl.
    now rewrite filter_everything.
  - pose proof (sort_rows_sorted [Desc F_last_view] table) as H.
    induction H as [|x l' Hl IH Hx]; constructor; [assumption|].
    eapply Forall_impl; [|exact Hx].
    intros y. unfold before; simpl.
    destruct (Z.compare_spec (last_view y) (last_view x)); intros;
      first [lia | discriminate].
Qed.

(** C5: [get_age] answers exactly [refdate - first_view] when the
    reference date is not before the first view, and fails its assertion
    when it is; without a reference date it takes the clock. *)
Theorem get_age_exact_or_assertion (self : ViewTracker) (refdate now : datetime) :
  ((first_view self <= refdate)%Z ->
     get_age self (Some refdate) now = Ok (refdate - first_view self)%Z) /\
  ((refdate < first_view self)%Z ->
     get_age self (Some refdate) now = Raise AssertionError) /\
  get_age self None now = get_age self (Some now) now.
Proof.
  unfold get_age. repeat split.
  - intros H. apply Z.leb_le in H. now rewrite H.
  - intros H. apply Z.leb_gt in H. now rewrite H.
Qed.

(** C7: a query of the manager that asks for no order of its own comes
    back ordered by ascending [views], then descending [last_view], then
    ascending [first_view]; a table holding A (5 views, seen at t2),
    B (5 views, seen at t1 < t2) and C (3 views), stored in any order,
    is listed as C, A, B. *)
Theorem default_ordering (table : Table) :
  StronglySorted popularity_le (rows get_query_set table) /\
  (forall models,
     StronglySorted popularity_le (rows (get_for_models models) table)) /\
  (forall objects,
     StronglySorted popularity_le (rows (get_for_objects objects) table)) /\
  (forall refdate now,
     StronglySorted popularity_le (rows (select_age refdate now) table)) /\
  (forall a b c,
     views a = 5 -> views b = 5 -> views c = 3 ->
     (last_view b < last_view a)%Z ->
     Permutation table [a; b; c] ->
     rows get_query_set table = [c; a; b]).
Proof.
  split; [|split; [|split; [|split]]].
  - now apply rows_default_sorted.
  - intros. now apply rows_default_sorted.
  - intros. apply rows_default_sorted, order_by_get_for_objects.
  - intros. now apply rows_default_sorted.
  - intros a b c Ha Hb Hc Hab Hp.
    apply sorted_perm_unique with (R := popularity_le).
    + now apply rows_default_sorted.
    + unfold popularity_le.
      repeat constructor; lia.
    + rewrite rows_perm.
      rewrite (filter_ext (selects get_query_set) (fun _ => true)) by reflexivity.
      rewrite filter_everything, Hp.
      apply Permutation_sym, Permutation_cons_append with (l := [a; b]).
    + intros x y Hx Hy.
      apply rows_In in Hx, Hy. destruct Hx as [Hx _], Hy as [Hy _].
      apply (Permutation_in _ Hp) in Hx, Hy. simpl in Hx, Hy.
      unfold popularity_le.
      destruct Hx as [<-|[<-|[<-|[]]]], Hy as [<-|[<-|[<-|[]]]];
        intros; try reflexivity; lia.
Qed.

(** C8: the batch lookup over no objects selects nothing; over any
    objects it returns the stored rows whose (type, id) pair belongs to one
    of them, each row once however often its object is listed. *)
Theorem get_for_objects_selects (table : Table) (objects : list Object) :
  rows (get_for_objects []) table = [] /\
  fetch (get_for_objects []) table = [] /\
  Permutation (rows (get_for_objects objects) table)
              (filter (tracks_any objects) table) /\
  (forall r, In r (rows (get_for_objects objects) table) <->
             In r table /\ exists o, In o objects /\ key r = ref o) /\
  (NoDup table -> NoDup (rows (get_for_objects objects) table)).
Proof.
  split; [reflexivity|]. split; [reflexivity|].
  assert (Permutation (rows (get_for_objects objects) table)
                      (filter (tracks_any objects) table)) as Hp.
  { rewrite rows_perm.
    now rewrite (filter_ext _ _ (selects_get_for_objects objects)). }
  split; [exact Hp|]. split.
  - intros r. rewrite rows_In, selects_get_for_objects.
    unfold tracks_any. rewrite existsb_exists.
    split; intros [H [o [Ho Hk]]]; (split; [assumption|]); exists o;
      (split; [assumption|]); now apply key_eqb_eq.
  - intros Hnd. apply (Permutation_NoDup (Permutation_sym Hp)).
    now apply NoDup_filter.
Qed.

(** C10: the query for one model is the query for the list holding just
    that model, and both return the rows stored under the model's content
    type. *)
Theorem get_for_model_singleton (model : Model) (table : Table) :
  get_for_model model = get_for_models [model] /\
  rows (get_for_model model) table = rows (get_for_models [model]) table /\
  fetch (get_for_model model) table = fetch (get_for_models [model]) table /\
  (forall r, In r (rows (get_for_models [model]) table) <->
             In r table /\ content_type r = ContentType_get_for_model model) /\
  Permutation (rows (get_for_model model) table)
    (filter (fun r => Nat.eqb (content_type r) (ContentType_get_for_model model))
            table).
Proof.
  split; [reflexivity|]. split; [reflexivity|]. split; [reflexivity|]. split.
  - intros r. rewrite rows_In, selects_get_for_models. simpl.
    rewrite orb_false_r, Nat.eqb_eq. reflexivity.
  - rewrite rows_perm. apply Permutation_refl'.
    apply filter_ext. intros r. unfold get_for_model.
    rewrite selects_get_for_models. simpl. now rewrite orb_false_r.
Qed.

(** ** The table under [get], [get_or_create] and [save] *)

Lemma get_rows (ct : ContentType) (n : nat) (table : Table) :
  rows (filter_ [content_type__exact ct; object_id__exact n] get_query_set) table
  = sort_rows Meta_ordering (stored_under (ct, n) table).
Proof.
  reflexivity.
Qed.

Lemma get_absent (ct : ContentType) (n : nat) (table : Table) :
  stored_under (ct, n) table = [] ->
  get [content_type__exact ct; object_id__exact n] table
  = (Raise DoesNotExist, table).
Proof.
  intros H. unfold get. rewrite get_rows, H. reflexivity.
Qed.

Lemma get_present (ct : ContentType) (n : nat) (table : Table) (r : ViewTracker) :
  stored_under (ct, n) table = [r] ->
  get [content_type__exact ct; object_id__exact n] table = (Ok r, table).
Proof.
  intros H. unfold get. rewrite get_rows, H. reflexivity.
Qed.

Lemma stored_under_nil (k : ContentType * nat) (table : Table) :
  (forall r, In r table -> key r <> k) <-> stored_under k table = [].
Proof.
  unfold stored_under. split.
  - intros H. induction table as [|x t IH]; simpl; [reflexivity|].
    destruct (key_eqb (key x) k) eqn:E.
    + apply key_eqb_eq in E. exfalso. apply (H x); [now left | assumption].
    + apply IH. intros r Hr. apply H. now right.
  - intros H r Hr Hk.
    assert (In r (filter (fun r => key_eqb (key r) k) table)) as Hin
      by (apply filter_In; split; [assumption | now apply key_eqb_eq]).
    rewrite H in Hin. destruct Hin.
Qed.

Lemma stored_under_unique (table : Table) (r : ViewTracker) :
  unique_together table -> In r table -> stored_under (key r) table = [r].
Proof.
  unfold unique_together, stored_under.
  induction table as [|x t IH]; simpl; intros Hnd Hin; [destruct Hin|].
  inversion Hnd as [|? ? Hx Ht]; subst.
  destruct Hin as [->|Hin].
  - replace (key_eqb (key r) (key r)) with true
      by (symmetry; now apply key_eqb_eq).
    f_equal. apply stored_under_nil. intros r' Hr' Hk.
    apply Hx. rewrite <- Hk. now apply in_map.
  - destruct (key_eqb (key x) (key r)) eqn:E.
    + apply key_eqb_eq in E. exfalso. apply Hx. rewrite E. now apply in_map.
    + now apply IH.
Qed.

Lemma stored_under_In (k : ContentType * nat) (table : Table) (r r' : ViewTracker) :
  stored_under k table = [r] -> In r' table -> key r' = k -> r' = r.
Proof.
  intros H Hin Hk.
  assert (In r' (stored_under k table)) as Hin'
    by (apply filter_In; split; [assumption | now apply key_eqb_eq]).
  rewrite H in Hin'. destruct Hin' as [->|[]]. reflexivity.
Qed.

Lemma stored_under_head (k : ContentType * nat) (table : Table) (r : ViewTracker) :
  stored_under k table = [r] -> In r table /\ key r = k.
Proof.
  intros H.
  assert (In r (stored_under k table)) as Hin by (rewrite H; now left).
  apply filter_In in Hin. destruct Hin as [Hin Hk].
  split; [assumption | now apply key_eqb_eq].
Qed.

Lemma next_pk_fresh (table : Table) (r : ViewTracker) :
  In r table -> pk r < next_pk table.
Proof.
  unfold next_pk. induction table as [|x t IH]; simpl; intros H; [destruct H|].
  destruct H as [->|H]; [lia|].
  specialize (IH H). lia.
Qed.

Lemma filter_update (p : ViewTracker -> bool) (upd : ViewTracker -> ViewTracker)
    (l : list ViewTracker) :
  (forall x, In x l -> p (upd x) = p x) ->
  filter p (map upd l) = map upd (filter p l).
Proof.
  induction l as [|x t IH]; simpl; intros H; [reflexivity|].
  rewrite (H x) by now left.
  destruct (p x); simpl; rewrite IH; auto.
Qed.

Lemma get_views_for_absent (o : Object) (table : Table) :
  stored_under (ref o) table = [] -> get_views_for o table = (Ok 0, table).
Proof.
  intros H. unfold get_views_for, try_except, bind, get_for_object.
  unfold ref in H. now rewrite (get_absent _ _ _ H).
Qed.

(** C4: [get_views_for] never changes the table; it answers 0 when no
    row is stored for the object and, on a table that keeps
    [unique_together], the [views] of the row that is. *)
Theorem get_views_for_reads (o : Object) (table : Table) :
  snd (get_views_for o table) = table /\
  (stored_under (ref o) table = [] -> get_views_for o table = (Ok 0, table)) /\
  ((forall r, In r table -> key r <> ref o) ->
     get_views_for o table = (Ok 0, table)) /\
  (unique_together table ->
   forall r, In r table -> key r = ref o ->
     get_views_for o table = (Ok (views r), table)).
Proof.
  pose proof (get_views_for_absent o table) as Habsent.
  split; [|split; [exact Habsent|split]].
  - unfold get_views_for, try_except, bind, get_for_object, get.
    destruct (rows _ table) as [|r [|r' l]]; reflexivity.
  - intros H. now apply Habsent, stored_under_nil.
  - intros Hu r Hin Hk.
    pose proof (stored_under_unique _ _ Hu Hin) as H. rewrite Hk in H.
    unfold get_views_for, try_except, bind, get_for_object.
    unfold ref in H. now rewrite (get_present _ _ _ _ H).
Qed.

Lemma violates_unique_absent (n : nat) (v : ViewTracker) (table : Table) :
  stored_under (key v) table = [] -> violates_unique n v table = false.
Proof.
  intros H. destruct (violates_unique n v table) eqn:E; [|reflexivity].
  apply existsb_exists in E. destruct E as [r' [Hin E]].
  apply andb_true_iff in E. destruct E as [_ E].
  apply key_eqb_eq in E.
  apply stored_under_nil with (r := r') in H; [contradiction | assumption].
Qed.

Lemma violates_unique_sole (v r : ViewTracker) (table : Table) :
  stored_under (key v) table = [r] -> pk r = pk v ->
  violates_unique (pk v) v table = false.
Proof.
  intros H Hpk. destruct (violates_unique (pk v) v table) eqn:E; [|reflexivity].
  apply existsb_exists in E. destruct E as [r' [Hin E]].
  apply andb_true_iff in E. destruct E as [E1 E2].
  apply key_eqb_eq in E2.
  rewrite (stored_under_In _ _ _ _ H Hin E2), Hpk, Nat.eqb_refl in E1.
  discriminate.
Qed.

Lemma stored_at_fresh (n : nat) (table : Table) :
  (forall r, In r table -> pk r <> n) -> stored_at n table = [].
Proof.
  unfold stored_at. induction table as [|x t IH]; simpl; intros H; [reflexivity|].
  destruct (Nat.eqb (pk x) n) eqn:E.
  - apply Nat.eqb_eq in E. exfalso. apply (H x); [now left | assumption].
  - apply IH. intros r Hr. apply H. now right.
Qed.

Lemma stored_at_In (n : nat) (table : Table) (r r' : ViewTracker) :
  stored_at n table = [r] -> In r' table -> pk r' = n -> r' = r.
Proof.
  intros H Hin Hk.
  assert (In r' (stored_at n table)) as Hin'
    by (apply filter_In; split; [assumption | now apply Nat.eqb_eq]).
  rewrite H in Hin'. destruct Hin' as [->|[]]. reflexivity.
Qed.

Lemma stored_at_exists (n : nat) (table : Table) (r : ViewTracker) :
  stored_at n table = [r] ->
  existsb (fun r' => Nat.eqb (pk r') n) table = true.
Proof.
  intros H. apply existsb_exists. exists r.
  assert (In r (stored_at n table)) as Hin by (rewrite H; now left).
  now apply filter_In in Hin.
Qed.

Lemma sole_pk (k : ContentType * nat) (r : ViewTracker) (table : Table) :
  sole k r table -> In r table /\ key r = k.
Proof.
  intros [H _]. now apply stored_under_head.
Qed.

(** The UPDATE that [save] issues for [v], an object read from the one
    row of its pair, leaves [v] as that one row. *)
Lemma sole_update (k : ContentType * nat) (r v : ViewTracker) (table : Table) :
  sole k r table -> pk v = pk r -> key v = k ->
  sole k v (map (fun r' => if Nat.eqb (pk r') (pk v) then v else r') table).
Proof.
  intros [Hk Hp] Hpk Hkey. unfold sole, stored_under, stored_at. split.
  - rewrite filter_update.
    + fold (stored_under k table). rewrite Hk. simpl.
      now rewrite Hpk, Nat.eqb_refl.
    + intros x Hx. destruct (Nat.eqb (pk x) (pk v)) eqn:E; [|reflexivity].
      apply Nat.eqb_eq in E. rewrite Hpk in E.
      rewrite (stored_at_In _ _ _ _ Hp Hx E), Hkey.
      destruct (stored_under_head _ _ _ Hk) as [_ ->]. reflexivity.
  - rewrite filter_update.
    + fold (stored_at (pk v) table). rewrite Hpk, Hp. simpl.
      now rewrite <- Hpk, Nat.eqb_refl.
    + intros x Hx. destruct (Nat.eqb (pk x) (pk v)) eqn:E; [|assumption].
      apply Nat.eqb_refl.
Qed.

Lemma get_for_object_existing (o : Object) (t : datetime) (r : ViewTracker)
    (table : Table) :
  stored_under (ref o) table = [r] ->
  get_for_object o true t table = (Ok r, table).
Proof.
  intros H. unfold get_for_object, bind, get_or_create, try_except, bind.
  unfold ref in H. now rewrite (get_present _ _ _ _ H).
Qed.

Lemma get_for_object_creates (o : Object) (t : datetime) (table : Table) :
  stored_under (ref o) table = [] ->
  exists r,
    get_for_object o true t table = (Ok r, table ++ [r]) /\
    sole (ref o) r (table ++ [r]) /\
    views r = 0 /\ first_view r = t /\ last_view r = t.
Proof.
  intros H.
  exists (mkViewTracker (next_pk table) (ContentType_get_for_model (class_ o))
                        (object_pk o) t t 0).
  split; [|split; [|auto]].
  - unfold get_for_object, bind, get_or_create, try_except, bind.
    unfold ref in H. rewrite (get_absent _ _ _ H). simpl.
    unfold save_new, sql_insert.
    rewrite violates_unique_absent by exact H. reflexivity.
  - unfold sole, stored_under, stored_at. rewrite !filter_app. simpl.
    fold (stored_under (ref o) table). rewrite H.
    unfold ref at 1, key_eqb. simpl. rewrite !Nat.eqb_refl. simpl.
    split; [reflexivity|].
    fold (stored_at (next_pk table) table).
    rewrite stored_at_fresh; [reflexivity|].
    intros r Hr. apply next_pk_fresh in Hr. lia.
Qed.

Lemma increment_sole (k : ContentType * nat) (r v : ViewTracker) (t : datetime)
    (table : Table) :
  sole k r table -> pk v = pk r -> key v = k ->
  exists v' table',
    increment v t table = (Ok v', table') /\
    sole k v' table' /\
    views v' = views v + 1 /\ first_view v' = first_view v /\ last_view v' = t /\
    pk v' = pk v.
Proof.
  intros Hs Hpk Hkey.
  set (v' := with_last_view t (with_views (views v + 1) v)).
  exists v', (map (fun r' => if Nat.eqb (pk r') (pk v') then v' else r') table).
  split; [|split; [|repeat split]].
  - unfold increment, save. destruct Hs as [Hk Hp].
    change (pk (with_views (views v + 1) v)) with (pk v).
    rewrite Hpk, (stored_at_exists _ _ _ Hp).
    unfold sql_update. fold v'.
    rewrite (violates_unique_sole v' r); [reflexivity| |now symmetry].
    change (key v') with (key v). now rewrite Hkey.
  - now apply sole_update with r.
Qed.

Lemma add_view_for_first (o : Object) (t1 t2 : datetime) (table : Table) :
  stored_under (ref o) table = [] ->
  exists r table',
    add_view_for o t1 t2 table = (Ok r, table') /\
    sole (ref o) r table' /\ views r = 1 /\
    first_view r = t1 /\ last_view r = t2.
Proof.
  intros H.
  destruct (get_for_object_creates o t1 _ H) as [r0 [Hg [Hs [Hv [Hf _]]]]].
  destruct (sole_pk _ _ _ Hs) as [_ Hk].
  destruct (increment_sole _ r0 r0 t2 _ Hs eq_refl Hk)
    as [r [table' [Hi [Hs' [Hv' [Hf' [Hl' _]]]]]]].
  exists r, table'. unfold add_view_for, bind. rewrite Hg, Hi.
  repeat split; try apply Hs'; try assumption; [lia | congruence].
Qed.

Lemma add_view_for_next (o : Object) (t1 t2 : datetime) (r : ViewTracker)
    (table : Table) :
  sole (ref o) r table ->
  exists r' table',
    add_view_for o t1 t2 table = (Ok r', table') /\
    sole (ref o) r' table' /\ views r' = views r + 1 /\
    first_view r' = first_view r /\ last_view r' = t2.
Proof.
  intros Hs.
  destruct (sole_pk _ _ _ Hs) as [_ Hk].
  destruct (increment_sole _ r r t2 _ Hs eq_refl Hk)
    as [r' [table' [Hi [Hs' [Hv' [Hf [Hl _]]]]]]].
  exists r', table'. unfold add_view_for, bind.
  rewrite (get_for_object_existing o t1 _ _ (proj1 Hs)), Hi. auto.
Qed.

Lemma add_views_for_sole (o : Object) (clock : list (datetime * datetime))
    (r : ViewTracker) (table : Table) :
  sole (ref o) r table ->
  map counted (fst (add_views_for o clock table))
  = map Some (seq (S (views r)) (List.length clock)) /\
  exists r', sole (ref o) r' (snd (add_views_for o clock table)) /\
             views r' = views r + List.length clock.
Proof.
  revert r table. induction clock as [|[t1 t2] clock IH]; intros r table Hs; simpl.
  - split; [reflexivity|]. exists r. split; [assumption | lia].
  - destruct (add_view_for_next o t1 t2 _ _ Hs) as [r1 [table1 [Ha [Hs1 [Hv1 _]]]]].
    rewrite Ha. destruct (IH r1 table1 Hs1) as [Hm [r' [Hs' Hv']]].
    destruct (add_views_for o clock table1) as [outs table2]. simpl in *.
    split.
    + rewrite Hm, Hv1. replace (views r + 1) with (S (views r)) by lia.
      reflexivity.
    + exists r'. split; [assumption | lia].
Qed.

Lemma get_views_for_sole (o : Object) (r : ViewTracker) (table : Table) :
  sole (ref o) r table -> get_views_for o table = (Ok (views r), table).
Proof.
  intros [H _]. unfold get_views_for, try_except, bind, get_for_object.
  unfold ref in H. now rewrite (get_present _ _ _ _ H).
Qed.

(** C6: from a table with no row for the object, N calls of
    [add_view_for] one after the other all succeed, the k-th answering a
    record of k views, and leave one row for the object, of N views. *)
Theorem add_view_for_counts (o : Object) (clock : list (datetime * datetime))
    (table : Table) :
  (forall r, In r table -> key r <> ref o) ->
  map counted (fst (add_views_for o clock table))
  = map Some (seq 1 (List.length clock)) /\
  get_views_for o (snd (add_views_for o clock table))
  = (Ok (List.length clock), snd (add_views_for o clock table)) /\
  (clock <> [] ->
   exists r, stored_under (ref o) (snd (add_views_for o clock table)) = [r] /\
             views r = List.length clock).
Proof.
  intros Habsent. apply stored_under_nil in Habsent.
  destruct clock as [|[t1 t2] clock].
  - simpl. split; [reflexivity|]. split.
    + now apply get_views_for_absent.
    + congruence.
  - simpl.
    destruct (add_view_for_first o t1 t2 _ Habsent) as [r1 [table1 [Ha [Hs1 [Hv1 _]]]]].
    rewrite Ha.
    destruct (add_views_for_sole o clock _ _ Hs1) as [Hm [r' [Hs' Hv']]].
    destruct (add_views_for o clock table1) as [outs table2]. simpl in *.
    rewrite Hv1 in *.
    split; [now rewrite Hm|]. split.
    + rewrite (get_views_for_sole _ _ _ Hs'). do 2 f_equal. lia.
    + intros _. exists r'. split; [apply Hs' | lia].
Qed.

(** ** The constraints hold in every table the operations reach *)

Lemma NoDup_snoc (A : Type) (l : list A) (x : A) :
  NoDup l -> ~ In x l -> NoDup (l ++ [x]).
Proof.
  intros Hl Hx.
  apply (Permutation_NoDup (Permutation_cons_append l x)).
  now constructor.
Qed.

Lemma violates_unique_false (n : nat) (v : ViewTracker) (table : Table) :
  violates_unique n v table = false ->
  forall r', In r' table -> pk r' <> n -> key r' <> key v.
Proof.
  intros H r' Hin Hpk Hk.
  assert (violates_unique n v table = true) as E; [|congruence].
  apply existsb_exists. exists r'. split; [assumption|].
  apply andb_true_iff. split.
  - apply negb_true_iff. now apply Nat.eqb_neq.
  - now apply key_eqb_eq.
Qed.

Lemma sql_insert_constrained (n : nat) (v : ViewTracker) (table : Table) :
  constrained table ->
  (forall r', In r' table -> pk r' <> n) ->
  constrained (snd (sql_insert n v table)).
Proof.
  intros [Hp Hk] Hfresh. unfold sql_insert.
  destruct (violates_unique n v table) eqn:E; simpl; [now split|].
  unfold constrained, unique_pk, unique_together. rewrite !map_app. simpl.
  split; apply NoDup_snoc; try assumption.
  - intros Hin. apply in_map_iff in Hin. destruct Hin as [r' [Hr' Hin]].
    now apply (Hfresh r').
  - intros Hin. apply in_map_iff in Hin. destruct Hin as [r' [Hr' Hin]].
    apply (violates_unique_false _ _ _ E r' Hin); [now apply Hfresh | exact Hr'].
Qed.

Lemma update_elsewhere (v : ViewTracker) (table : Table) :
  (forall r', In r' table -> pk r' <> pk v) ->
  map (fun r' => if Nat.eqb (pk r') (pk v) then v else r') table = table.
Proof.
  intros H. rewrite <- (map_id table) at 2. apply map_ext_in.
  intros r' Hin. apply H in Hin. apply Nat.eqb_neq in Hin. now rewrite Hin.
Qed.

Lemma update_keys (v : ViewTracker) (table : Table) (k : ContentType * nat) :
  In k (map key (map (fun r' => if Nat.eqb (pk r') (pk v) then v else r') table)) ->
  k = key v \/ In k (map key table).
Proof.
  rewrite map_map, in_map_iff. intros [r' [Hk Hin]].
  destruct (Nat.eqb (pk r') (pk v)).
  - left. now symmetry.
  - right. rewrite <- Hk. now apply in_map.
Qed.

Lemma update_unique_together (v : ViewTracker) (table : Table) :
  unique_pk table -> unique_together table ->
  (forall r', In r' table -> pk r' <> pk v -> key r' <> key v) ->
  unique_together (map (fun r' => if Nat.eqb (pk r') (pk v) then v else r') table).
Proof.
  unfold unique_pk, unique_together.
  induction table as [|x t IH]; simpl; intros Hp Hk Hother; [constructor|].
  inversion Hp as [|? ? Hpx Hpt]; subst.
  inversion Hk as [|? ? Hkx Hkt]; subst.
  destruct (Nat.eqb (pk x) (pk v)) eqn:E.
  - apply Nat.eqb_eq in E.
    assert (forall r', In r' t -> pk r' <> pk v) as Hneq.
    { intros r' Hin Heq. apply Hpx. rewrite E, <- Heq. now apply in_map. }
    rewrite update_elsewhere by exact Hneq.
    constructor; [|assumption].
    intros Hin. apply in_map_iff in Hin. destruct Hin as [r' [Hr' Hin]].
    apply (Hother r'); [now right | now apply Hneq | exact Hr'].
  - apply Nat.eqb_neq in E. constructor.
    + intros Hin. apply update_keys in Hin. destruct Hin as [Hin|Hin].
      * apply (Hother x); [now left | assumption | assumption].
      * contradiction.
    + apply IH; try assumption.
      intros r' Hin. apply Hother. now right.
Qed.

Lemma sql_update_constrained (v : ViewTracker) (table : Table) :
  constrained table -> constrained (snd (sql_update v table)).
Proof.
  intros [Hp Hk]. unfold sql_update.
  destruct (violates_unique (pk v) v table) eqn:E; simpl; [now split|].
  split.
  - unfold unique_pk. rewrite map_map.
    rewrite (map_ext_in _ pk); [exact Hp|].
    intros r' _. destruct (Nat.eqb (pk r') (pk v)) eqn:E'; [|reflexivity].
    apply Nat.eqb_eq in E'. now symmetry.
  - apply update_unique_together; try assumption.
    now apply violates_unique_false.
Qed.

Lemma save_constrained (self : ViewTracker) (now : datetime) (table : Table) :
  constrained table -> constrained (snd (save self now table)).
Proof.
  intros H. unfold save.
  destruct (existsb (fun r' => Nat.eqb (pk r') (pk self)) table) eqn:E.
  - now apply sql_update_constrained.
  - apply sql_insert_constrained; [assumption|].
    intros r' Hin Hpk.
    assert (existsb (fun r' => Nat.eqb (pk r') (pk self)) table = true) as E';
      [|congruence].
    apply existsb_exists. exists r'. split; [assumption | now apply Nat.eqb_eq].
Qed.

Lemma save_new_constrained (self : ViewTracker) (now : datetime) (table : Table) :
  constrained table -> constrained (snd (save_new self now table)).
Proof.
  intros H. unfold save_new. apply sql_insert_constrained; [assumption|].
  intros r' Hin. apply next_pk_fresh in Hin. lia.
Qed.

Lemma get_reads (kwargs : list lookup) (table : Table) :
  snd (get kwargs table) = table.
Proof.
  unfold get. destruct (rows _ table) as [|r [|r' l]]; reflexivity.
Qed.

Lemma bind_keeps (A B : Type) (P : Table -> Prop) (m : db A) (k : A -> db B) :
  (forall table, P table -> P (snd (m table))) ->
  (forall a table, P table -> P (snd (k a table))) ->
  forall table, P table -> P (snd (bind m k table)).
Proof.
  intros Hm Hk table H. unfold bind. specialize (Hm table H).
  destruct (m table) as [[a|e] table']; simpl in *; auto.
Qed.

Lemma try_except_keeps (A : Type) (P : Table -> Prop) (m h : db A)
    (handles : exn -> bool) :
  (forall table, P table -> P (snd (m table))) ->
  (forall table, P table -> P (snd (h table))) ->
  forall table, P table -> P (snd (try_except m handles h table)).
Proof.
  intros Hm Hh table H. unfold try_except. specialize (Hm table H).
  destruct (m table) as [[a|e] table']; simpl in *; auto.
  destruct (handles e); simpl; auto.
Qed.

Lemma get_keeps (P : Table -> Prop) (kwargs : list lookup) (table : Table) :
  P table -> P (snd (get kwargs table)).
Proof.
  now rewrite get_reads.
Qed.

Lemma get_or_create_constrained (ct : ContentType) (n : nat) (now : datetime)
    (table : Table) :
  constrained table -> constrained (snd (get_or_create ct n now table)).
Proof.
  unfold get_or_create. revert table.
  apply try_except_keeps; [|apply try_except_keeps].
  - apply bind_keeps; [intros; now apply get_keeps | auto].
  - apply bind_keeps; [intros; now apply save_new_constrained | auto].
  - apply bind_keeps; [intros; now apply get_keeps | auto].
Qed.

Lemma get_for_object_constrained (o : Object) (create : bool) (now : datetime)
    (table : Table) :
  constrained table -> constrained (snd (get_for_object o create now table)).
Proof.
  unfold get_for_object. destruct create.
  - revert table. apply bind_keeps; [|auto].
    intros. now apply get_or_create_constrained.
  - now apply get_keeps.
Qed.

Lemma increment_constrained (self : ViewTracker) (now : datetime) (table : Table) :
  constrained table -> constrained (snd (increment self now table)).
Proof.
  apply save_constrained.
Qed.

Lemma add_view_for_constrained (o : Object) (t1 t2 : datetime) (table : Table) :
  constrained table -> constrained (snd (add_view_for o t1 t2 table)).
Proof.
  unfold add_view_for. revert table. apply bind_keeps.
  - intros. now apply get_for_object_constrained.
  - intros. now apply increment_constrained.
Qed.

Lemma get_views_for_table (o : Object) (table : Table) :
  snd (get_views_for o table) = table.
Proof.
  unfold get_views_for, try_except, bind, get_for_object, get.
  destruct (rows _ table) as [|r [|r' l]]; reflexivity.
Qed.

Lemma table_after_constrained (c : call) (table : Table) :
  constrained table -> constrained (table_after c table).
Proof.
  destruct c; simpl; intros H.
  - now apply get_for_object_constrained.
  - now apply add_view_for_constrained.
  - now apply increment_constrained.
  - now rewrite get_views_for_table.
Qed.

Lemma history_constrained (calls : list call) :
  constrained (history calls).
Proof.
  unfold history.
  assert (constrained []) as H by (split; constructor).
  revert H. generalize (@nil ViewTracker).
  induction calls as [|c calls IH]; simpl; intros table H; [assumption|].
  apply IH. now apply table_after_constrained.
Qed.

Lemma stored_under_cases (k : ContentType * nat) (table : Table) :
  unique_together table ->
  stored_under k table = [] \/ exists r, stored_under k table = [r].
Proof.
  intros Hu. destruct (stored_under k table) as [|r l] eqn:E; [now left|].
  right. exists r.
  assert (In r (stored_under k table)) as Hin by (rewrite E; now left).
  apply filter_In in Hin. destruct Hin as [Hin Hk]. apply key_eqb_eq in Hk.
  rewrite <- E, <- Hk. now apply stored_under_unique.
Qed.

(** C9: whatever calls were made on an empty table, no two rows of the
    table share a (content_type, object_id) pair, and [get_or_create]
    through [get_for_object] answers the same record when called a second
    time, leaving the table as the first call left it. *)
Theorem one_row_per_object (calls : list call) :
  unique_together (history calls) /\
  (forall r1 r2, In r1 (history calls) -> In r2 (history calls) ->
                 key r1 = key r2 -> r1 = r2) /\
  (forall k, List.length (stored_under k (history calls)) <= 1) /\
  (forall o t1 t2, exists r table1,
      get_for_object o true t1 (history calls) = (Ok r, table1) /\
      get_for_object o true t2 table1 = (Ok r, table1) /\
      stored_under (ref o) table1 = [r] /\
      unique_together table1).
Proof.
  destruct (history_constrained calls) as [Hp Hu].
  split; [exact Hu|]. split; [|split].
  - intros r1 r2 H1 H2 Hk.
    pose proof (stored_under_unique _ _ Hu H2) as H.
    now apply (stored_under_In _ _ _ _ H H1).
  - intros k. destruct (stored_under_cases k _ Hu) as [->|[r ->]]; simpl; lia.
  - intros o t1 t2.
    destruct (stored_under_cases (ref o) _ Hu) as [H|[r H]].
    + destruct (get_for_object_creates o t1 _ H) as [r [Hg [Hs _]]].
      exists r, (history calls ++ [r]). split; [exact Hg|]. split; [|split].
      * apply get_for_object_existing, Hs.
      * apply Hs.
      * pose proof (get_for_object_constrained o true t1 (history calls)
                      (conj Hp Hu)) as Hc.
        rewrite Hg in Hc. apply Hc.
    + exists r, (history calls). split; [|split; [|split]]; try assumption;
        now apply get_for_object_existing.
Qed.

(** ** Calls of [add_view_for] that overlap *)

Lemma replace_nth_length (A : Type) (i : nat) (x : A) (l : list A) :
  List.length (replace_nth i x l) = List.length l.
Proof.
  revert i. induction l as [|y l IH]; intros [|i]; simpl; auto.
Qed.

Lemma replace_nth_same (A : Type) (i : nat) (x : A) (l : list A) :
  nth_error l i = Some x -> replace_nth i x l = l.
Proof.
  revert i. induction l as [|y l IH]; intros [|i]; simpl; intros H;
    try discriminate.
  - congruence.
  - now rewrite IH.
Qed.

Lemma replace_nth_middle (A : Type) (pre post : list A) (x y : A) :
  replace_nth (List.length pre) x (pre ++ y :: post) = pre ++ x :: post.
Proof.
  induction pre as [|z pre IH]; simpl; congruence.
Qed.

Lemma nth_error_middle (A : Type) (pre post : list A) (y : A) :
  nth_error (pre ++ y :: post) (List.length pre) = Some y.
Proof.
  induction pre as [|z pre IH]; simpl; auto.
Qed.

Lemma replace_nth_Forall (A : Type) (P : A -> Prop) (i : nat) (x : A) (l : list A) :
  Forall P l -> P x -> Forall P (replace_nth i x l).
Proof.
  intros Hl Hx. revert i.
  induction Hl as [|y l Hy Hl IH]; intros [|i]; simpl; auto.
Qed.

Lemma nth_error_Forall (A : Type) (P : A -> Prop) (i : nat) (x : A) (l : list A) :
  Forall P l -> nth_error l i = Some x -> P x.
Proof.
  intros Hl Hx. rewrite Forall_forall in Hl. apply Hl.
  now apply nth_error_In with i.
Qed.

Lemma done_replace (i : nat) (rq rq' : request) (rqs : list request) :
  nth_error rqs i = Some rq ->
  done (replace_nth i rq' rqs) + (if finished rq then 1 else 0)
  = done rqs + (if finished rq' then 1 else 0).
Proof.
  unfold done. revert i.
  induction rqs as [|y rqs IH]; intros [|i]; simpl; intros H; try discriminate.
  - inversion H; subst. destruct (finished rq), (finished rq'); simpl; lia.
  - specialize (IH i H). destruct (finished y); simpl; lia.
Qed.

Lemma done_all (rqs : list request) :
  Forall (fun rq => finished rq = true) rqs -> done rqs = List.length rqs.
Proof.
  unfold done. induction 1 as [|rq rqs H _ IH]; simpl; [reflexivity|].
  rewrite H. simpl. now rewrite IH.
Qed.

Lemma done_none (rqs : list request) :
  Forall (fun rq => rq = Start) rqs -> done rqs = 0.
Proof.
  unfold done. induction 1 as [|rq rqs H _ IH]; simpl; [reflexivity|].
  now rewrite H.
Qed.

Lemma step_length (o : Object) (st : list request * Table) (ev : nat * datetime) :
  List.length (fst (step o st ev)) = List.length (fst st).
Proof.
  unfold step. destruct (nth_error (fst st) (fst ev)) as [rq|]; [|reflexivity].
  destruct (advance o (snd ev) rq (snd st)) as [rq' table']. simpl.
  apply replace_nth_length.
Qed.

Lemma interleave_length (o : Object) (schedule : list (nat * datetime))
    (st : list request * Table) :
  List.length (fst (interleave o schedule st)) = List.length (fst st).
Proof.
  unfold interleave. revert st.
  induction schedule as [|ev schedule IH]; simpl; intros st; [reflexivity|].
  now rewrite IH, step_length.
Qed.

(** The two round trips of one call, back to back, are [add_view_for]. *)
Lemma step_twice (o : Object) (t1 t2 : datetime) (pre post : list request)
    (table : Table) :
  step o (step o (pre ++ Start :: post, table) (List.length pre, t1))
         (List.length pre, t2)
  = (pre ++ Finished (fst (add_view_for o t1 t2 table)) :: post,
     snd (add_view_for o t1 t2 table)).
Proof.
  unfold step at 2. cbn [fst snd]. rewrite nth_error_middle.
  unfold advance, add_view_for, bind.
  destruct (get_for_object o true t1 table) as [[v|e] table1];
    rewrite replace_nth_middle; unfold step; cbn [fst snd];
    rewrite nth_error_middle; unfold advance.
  - destruct (increment v t2 table1) as [out table2].
    now rewrite replace_nth_middle.
  - now rewrite replace_nth_middle.
Qed.

(** Run one after the other, the calls are [add_views_for]. *)
Lemma interleave_serial (o : Object) (clock : list (datetime * datetime))
    (pre post : list request) (table : Table) :
  interleave o (serial (List.length pre) clock)
             (pre ++ repeat Start (List.length clock) ++ post, table)
  = (pre ++ map Finished (fst (add_views_for o clock table)) ++ post,
     snd (add_views_for o clock table)).
Proof.
  revert pre table.
  induction clock as [|[t1 t2] clock IH]; intros pre table; [reflexivity|].
  change (interleave o (serial (List.length pre) ((t1, t2) :: clock))
            (pre ++ repeat Start (List.length ((t1, t2) :: clock)) ++ post, table))
    with (interleave o (serial (S (List.length pre)) clock)
            (step o (step o (pre ++ Start :: repeat Start (List.length clock) ++ post,
                             table)
                          (List.length pre, t1))
                  (List.length pre, t2))).
  rewrite step_twice.
  specialize (IH (pre ++ [Finished (fst (add_view_for o t1 t2 table))])
                 (snd (add_view_for o t1 t2 table))).
  rewrite length_app, Nat.add_comm in IH. cbn [List.length Nat.add] in IH.
  rewrite <- !app_assoc in IH. cbn [app] in IH.
  rewrite IH. cbn [add_views_for].
  destruct (add_view_for o t1 t2 table) as [out table1]. cbn [fst snd].
  destruct (add_views_for o clock table1) as [outs table2]. reflexivity.
Qed.

Lemma all_returned (outs : list (result ViewTracker)) (l : list nat) :
  map counted outs = map Some l ->
  Forall (fun rq => returned rq = true) (map Finished outs).
Proof.
  revert l. induction outs as [|[r|e] outs IH]; intros [|n l]; simpl; intros H;
    try discriminate; constructor; try reflexivity.
  inversion H. now apply IH with l.
Qed.

Lemma add_views_for_absent (o : Object) (clock : list (datetime * datetime))
    (table : Table) :
  stored_under (ref o) table = [] ->
  map counted (fst (add_views_for o clock table))
  = map Some (seq 1 (List.length clock)) /\
  get_views_for o (snd (add_views_for o clock table))
  = (Ok (List.length clock), snd (add_views_for o clock table)).
Proof.
  intros Habsent. destruct clock as [|[t1 t2] clock]; simpl.
  - split; [reflexivity | now apply get_views_for_absent].
  - destruct (add_view_for_first o t1 t2 _ Habsent) as [r1 [table1 [Ha [Hs1 [Hv1 _]]]]].
    rewrite Ha.
    destruct (add_views_for_sole o clock _ _ Hs1) as [Hm [r' [Hs' Hv']]].
    destruct (add_views_for o clock table1) as [outs table2]. simpl in *.
    rewrite Hv1 in *. split; [now rewrite Hm|].
    rewrite (get_views_for_sole _ _ _ Hs'). do 2 f_equal. lia.
Qed.

(** ** Calls for several objects *)

Lemma stored_at_unique (table : Table) (r : ViewTracker) :
  unique_pk table -> In r table -> stored_at (pk r) table = [r].
Proof.
  unfold unique_pk, stored_at.
  induction table as [|x t IH]; simpl; intros Hnd Hin; [destruct Hin|].
  inversion Hnd as [|? ? Hx Ht]; subst.
  destruct Hin as [->|Hin].
  - rewrite Nat.eqb_refl. f_equal. apply stored_at_fresh.
    intros r' Hr' Hk. apply Hx. rewrite <- Hk. now apply in_map.
  - destruct (Nat.eqb (pk x) (pk r)) eqn:E.
    + apply Nat.eqb_eq in E. exfalso. apply Hx. rewrite E. now apply in_map.
    + now apply IH.
Qed.

Lemma sole_constrained (k : ContentType * nat) (r : ViewTracker) (table : Table) :
  constrained table -> stored_under k table = [r] -> sole k r table.
Proof.
  intros [Hp _] H. split; [assumption|].
  apply stored_at_unique; [assumption|].
  now apply (stored_under_head k table r).
Qed.

Lemma stored_under_snoc_other (k : ContentType * nat) (r : ViewTracker)
    (table : Table) :
  key r <> k -> stored_under k (table ++ [r]) = stored_under k table.
Proof.
  intros H. unfold stored_under. rewrite filter_app. simpl.
  destruct (key_eqb (key r) k) eqn:E.
  - apply key_eqb_eq in E. contradiction.
  - apply app_nil_r.
Qed.

(** The UPDATE for the row of one pair leaves the rows of every other
    pair as they are. *)
Lemma stored_under_update_other (k k' : ContentType * nat) (r v : ViewTracker)
    (table : Table) :
  sole k' r table -> pk v = pk r -> key v = k' -> k <> k' ->
  stored_under k (map (fun r' => if Nat.eqb (pk r') (pk v) then v else r') table)
  = stored_under k table.
Proof.
  intros [Hk Hp] Hpk Hkey Hne. unfold stored_under.
  destruct (stored_under_head _ _ _ Hk) as [Hin Hkr].
  rewrite filter_update.
  - apply update_elsewhere. intros r' Hr' Heq.
    apply filter_In in Hr'. destruct Hr' as [Hr' Hk'].
    apply key_eqb_eq in Hk'. rewrite Hpk in Heq.
    rewrite (stored_at_In _ _ _ _ Hp Hr' Heq) in Hk'. congruence.
  - intros x Hx. destruct (Nat.eqb (pk x) (pk v)) eqn:E; [|reflexivity].
    apply Nat.eqb_eq in E. rewrite Hpk in E.
    rewrite (stored_at_In _ _ _ _ Hp Hx E). congruence.
Qed.

Lemma count_of_sole (k : ContentType * nat) (r : ViewTracker) (table : Table) :
  stored_under k table = [r] -> count_of k table = views r.
Proof.
  intros H. unfold count_of. rewrite H. simpl. lia.
Qed.

Lemma count_of_absent (k : ContentType * nat) (table : Table) :
  stored_under k table = [] -> count_of k table = 0.
Proof.
  intros H. unfold count_of. now rewrite H.
Qed.

Lemma get_views_for_count (o : Object) (table : Table) :
  unique_together table ->
  get_views_for o table = (Ok (count_of (ref o) table), table).
Proof.
  intros Hu. destruct (stored_under_cases (ref o) table Hu) as [H|[r H]].
  - rewrite (count_of_absent _ _ H). now apply get_views_for_absent.
  - rewrite (count_of_sole _ _ _ H).
    unfold get_views_for, try_except, bind, get_for_object.
    unfold ref in H. now rewrite (get_present _ _ _ _ H).
Qed.

(** What [get_for_object] with [create=True] does to a table that keeps
    its constraints. *)
Lemma get_for_object_create_effect (o : Object) (now : datetime) (table : Table) :
  constrained table ->
  exists r table',
    get_for_object o true now table = (Ok r, table') /\
    sole (ref o) r table' /\
    (forall k, k <> ref o -> stored_under k table' = stored_under k table) /\
    views r = count_of (ref o) table /\
    ((table' = table /\ stored_under (ref o) table = [r]) \/
     (table' = table ++ [r] /\ stored_under (ref o) table = [] /\
      views r = 0 /\ first_view r = now /\ last_view r = now)).
Proof.
  intros Hc. destruct (stored_under_cases (ref o) table (proj2 Hc)) as [H|[r H]].
  - destruct (get_for_object_creates o now _ H) as [r [Hg [Hs [Hv [Hf Hl]]]]].
    exists r, (table ++ [r]). split; [assumption|]. split; [assumption|].
    destruct (sole_pk _ _ _ Hs) as [_ Hk].
    split; [|split].
    + intros k Hne. apply stored_under_snoc_other. congruence.
    + now rewrite (count_of_absent _ _ H).
    + right. auto.
  - exists r, table. split; [now apply get_for_object_existing|].
    split; [now apply sole_constrained|].
    split; [reflexivity|]. split; [now rewrite (count_of_sole _ _ _ H)|].
    left. auto.
Qed.

Lemma increment_sole_table (k : ContentType * nat) (r v : ViewTracker)
    (t : datetime) (table : Table) :
  sole k r table -> pk v = pk r -> key v = k ->
  increment v t table
  = (Ok (with_last_view t (with_views (views v + 1) v)),
     map (fun r' => if Nat.eqb (pk r') (pk v)
                    then with_last_view t (with_views (views v + 1) v)
                    else r') table).
Proof.
  intros [Hk Hp] Hpk Hkey. unfold increment, save.
  change (pk (with_views (views v + 1) v)) with (pk v).
  rewrite Hpk, (stored_at_exists _ _ _ Hp). unfold sql_update.
  change (pk (with_last_view t (with_views (views v + 1) v))) with (pk v).
  rewrite (violates_unique_sole
             (with_last_view t (with_views (views v + 1) v)) r);
    [now rewrite Hpk | | now symmetry].
  change (key (with_last_view t (with_views (views v + 1) v))) with (key v).
  now rewrite Hkey.
Qed.

(** What [add_view_for] does to a table that keeps its constraints. *)
Lemma add_view_for_effect (o : Object) (t1 t2 : datetime) (table : Table) :
  constrained table ->
  exists r table',
    add_view_for o t1 t2 table = (Ok r, table') /\
    sole (ref o) r table' /\
    (forall k, k <> ref o -> stored_under k table' = stored_under k table) /\
    views r = count_of (ref o) table + 1 /\ last_view r = t2.
Proof.
  intros Hc.
  destruct (get_for_object_create_effect o t1 table Hc)
    as [r0 [table0 [Hg [Hs0 [Hframe [Hv0 _]]]]]].
  destruct (sole_pk _ _ _ Hs0) as [_ Hk0].
  pose proof (increment_sole_table _ r0 r0 t2 _ Hs0 eq_refl Hk0) as Hi.
  exists (with_last_view t2 (with_views (views r0 + 1) r0)).
  eexists. unfold add_view_for, bind. rewrite Hg, Hi.
  split; [reflexivity|]. split; [|split; [|split]].
  - now apply (sole_update _ r0 (with_last_view t2 (with_views (views r0 + 1) r0))).
  - intros k Hne. rewrite <- (Hframe k Hne).
    now apply (stored_under_update_other k (ref o) r0
                 (with_last_view t2 (with_views (views r0 + 1) r0))).
  - simpl. now rewrite Hv0.
  - reflexivity.
Qed.

Lemma key_eqb_neq (a b : ContentType * nat) :
  key_eqb a b = false <-> a <> b.
Proof.
  split.
  - intros H Hab. apply key_eqb_eq in Hab. congruence.
  - intros H. destruct (key_eqb a b) eqn:E; [|reflexivity].
    apply key_eqb_eq in E. contradiction.
Qed.

Lemma table_after_count (o : Object) (c : call) (table : Table) :
  constrained table -> through_class c = true ->
  count_of (ref o) (table_after c table)
  = count_of (ref o) table + (if views_object (ref o) c then 1 else 0).
Proof.
  intros Hc Hthrough. destruct c as [o' create now|o' t1 t2|self now|o']; simpl.
  - rewrite Nat.add_0_r. destruct create.
    + destruct (get_for_object_create_effect o' now table Hc)
        as [r [table' [Hg [Hs [Hframe [Hv _]]]]]].
      rewrite Hg. simpl.
      destruct (key_eqb (ref o) (ref o')) eqn:E.
      * apply key_eqb_eq in E. rewrite E.
        now rewrite (count_of_sole _ _ _ (proj1 Hs)).
      * apply key_eqb_neq in E. unfold count_of. now rewrite (Hframe _ E).
    + unfold get_for_object. now rewrite get_reads.
  - destruct (add_view_for_effect o' t1 t2 table Hc)
      as [r [table' [Ha [Hs [Hframe [Hv _]]]]]].
    rewrite Ha. simpl.
    destruct (key_eqb (ref o') (ref o)) eqn:E.
    + apply key_eqb_eq in E. rewrite <- E.
      now rewrite (count_of_sole _ _ _ (proj1 Hs)).
    + apply key_eqb_neq in E. rewrite Nat.add_0_r.
      unfold count_of. rewrite (Hframe (ref o)); [reflexivity | congruence].
  - discriminate.
  - now rewrite get_views_for_table, Nat.add_0_r.
Qed.

Lemma calls_count (o : Object) (calls : list call) (table : Table) :
  constrained table ->
  Forall (fun c => through_class c = true) calls ->
  constrained (fold_left (fun table c => table_after c table) calls table) /\
  count_of (ref o) (fold_left (fun table c => table_after c table) calls table)
  = count_of (ref o) table + List.length (filter (views_object (ref o)) calls).
Proof.
  intros Hc Hall. revert table Hc.
  induction Hall as [|c calls Hthrough _ IH]; intros table Hc; simpl.
  - split; [assumption | lia].
  - destruct (IH (table_after c table) (table_after_constrained c table Hc))
      as [Hc' Hcount].
    split; [assumption|]. rewrite Hcount, (table_after_count o c table Hc Hthrough).
    destruct (views_object (ref o) c); simpl; lia.
Qed.

(** X1: as long as views are recorded through [add_view_for] (with any
    lookups in between, and no [increment] on an object the caller kept),
    the view count of an object is the number of [add_view_for] calls made
    for it: calls for other objects leave it alone. *)
Theorem views_count_calls (o : Object) (calls : list call) :
  Forall (fun c => through_class c = true) calls ->
  get_views_for o (history calls)
  = (Ok (List.length (filter (views_object (ref o)) calls)), history calls).
Proof.
  intros Hall.
  assert (constrained []) as H0 by (split; constructor).
  destruct (calls_count o calls [] H0 Hall) as [Hc Hcount].
  fold (history calls) in Hc, Hcount.
  rewrite (get_views_for_count o _ (proj2 Hc)), Hcount. reflexivity.
Qed.

(** X2: on a table reached through the class methods and the manager
    (no [increment] on an object the caller kept), [add_view_for] returns
    the object's record: it counts one view more than the calls of
    [add_view_for] made for the object before, it was last viewed at the
    clock of its save, and [get_views_for] then answers that count. *)
Theorem add_view_for_never_raises (calls : list call) (o : Object)
    (t1 t2 : datetime) :
  Forall (fun c => through_class c = true) calls ->
  exists r table',
    add_view_for o t1 t2 (history calls) = (Ok r, table') /\
    key r = ref o /\
    views r = List.length (filter (views_object (ref o)) calls) + 1 /\
    last_view r = t2 /\
    get_views_for o table' = (Ok (views r), table').
Proof.
  intros Hall.
  assert (constrained []) as H0 by (split; constructor).
  destruct (calls_count o calls [] H0 Hall) as [Hc Hcount].
  fold (history calls) in Hc, Hcount.
  destruct (add_view_for_effect o t1 t2 _ Hc)
    as [r [table' [Ha [Hs [_ [Hv Hl]]]]]].
  exists r, table'. split; [assumption|].
  split; [apply (sole_pk _ _ _ Hs)|].
  split; [|split; [assumption|now apply get_views_for_sole]].
  rewrite Hv, Hcount. reflexivity.
Qed.

(** ** The two dates of a record *)

Lemma last_cons (A : Type) (l : list A) (x d : A) :
  last (x :: l) d = last l x.
Proof.
  revert x d. induction l as [|y l IH]; intros x d; [reflexivity|].
  change (last (x :: y :: l) d) with (last (y :: l) d).
  now rewrite (IH y d), (IH y x).
Qed.

Lemma add_views_for_dates (o : Object) (clock : list (datetime * datetime))
    (r : ViewTracker) (table : Table) (t0 : datetime) :
  sole (ref o) r table ->
  exists r', sole (ref o) r' (snd (add_views_for o clock table)) /\
             views r' = views r + List.length clock /\
             first_view r' = first_view r /\
             last_view r' = snd (last clock (t0, last_view r)).
Proof.
  revert r table t0.
  induction clock as [|[t1 t2] clock IH]; intros r table t0 Hs.
  - exists r. simpl. split; [assumption|]. split; [lia | auto].
  - destruct (add_view_for_next o t1 t2 _ _ Hs)
      as [r1 [table1 [Ha [Hs1 [Hv1 [Hf1 Hl1]]]]]].
    destruct (IH r1 table1 t1 Hs1) as [r' [Hs' [Hv' [Hf' Hl']]]].
    exists r'. cbn [add_views_for]. rewrite Ha.
    destruct (add_views_for o clock table1) as [outs table2].
    cbn [fst snd List.length] in *.
    split; [assumption|]. split; [lia|]. split; [congruence|].
    rewrite last_cons, Hl', Hl1. reflexivity.
Qed.

(** X3: a record keeps the [first_view] it was created with: after any
    number of [add_view_for] calls for an object that had no row,
    [first_view] is the clock of the very first [get_or_create] and
    [last_view] the clock of the latest save. *)
Theorem first_view_is_kept (o : Object) (t_create t_save : datetime)
    (clock : list (datetime * datetime)) (table : Table) :
  (forall r, In r table -> key r <> ref o) ->
  exists r,
    stored_under (ref o)
      (snd (add_views_for o ((t_create, t_save) :: clock) table)) = [r] /\
    first_view r = t_create /\
    last_view r = snd (last clock (t_create, t_save)) /\
    views r = S (List.length clock).
Proof.
  intros Habsent. apply stored_under_nil in Habsent.
  destruct (add_view_for_first o t_create t_save _ Habsent)
    as [r1 [table1 [Ha [Hs1 [Hv1 [Hf1 Hl1]]]]]].
  destruct (add_views_for_dates o clock r1 table1 t_create Hs1)
    as [r [Hs [Hv [Hf Hl]]]].
  exists r. cbn [add_views_for]. rewrite Ha.
  destruct (add_views_for o clock table1) as [outs table2].
  cbn [fst snd] in *.
  split; [apply Hs|]. split; [congruence|]. split; [congruence | lia].
Qed.

(** X4: [get_age] never answers a negative duration: whenever it
    returns, with or without a reference date, the age is at least 0. *)
Theorem get_age_never_negative (self : ViewTracker) (refdate : option datetime)
    (now : datetime) (age : timedelta) :
  get_age self refdate now = Ok age -> (0 <= age)%Z.
Proof.
  unfold get_age. destruct refdate as [d|]; cbv zeta.
  - destruct (Z.leb_spec (first_view self) d) as [Hle|Hlt]; intros Hage;
      inversion Hage. lia.
  - destruct (Z.leb_spec (first_view self) now) as [Hle|Hlt]; intros Hage;
      inversion Hage. lia.
Qed.

(** ** Looking a record up *)

Lemma sort_rows_nil (os : list order_term) (l : list ViewTracker) :
  sort_rows os l = [] -> l = [].
Proof.
  intros H. pose proof (sort_rows_perm os l) as Hp. rewrite H in Hp.
  now apply Permutation_sym, Permutation_nil in Hp.
Qed.

Lemma sort_rows_one (os : list order_term) (l : list ViewTracker) (r : ViewTracker) :
  sort_rows os l = [r] -> l = [r].
Proof.
  intros H. pose proof (sort_rows_perm os l) as Hp. rewrite H in Hp.
  now apply Permutation_sym, Permutation_length_1_inv in Hp.
Qed.

(** X5: [get_for_object] without [create] only reads: the table is left
    as it was; it raises [DoesNotExist] exactly when no row is stored for
    the object; a record it returns is a stored row of that object; and on
    a table that keeps [unique_together] it returns the stored row. *)
Theorem get_for_object_lookup (o : Object) (now : datetime) (table : Table) :
  snd (get_for_object o false now table) = table /\
  (fst (get_for_object o false now table) = Raise DoesNotExist <->
   forall r, In r table -> key r <> ref o) /\
  (forall r, fst (get_for_object o false now table) = Ok r ->
             In r table /\ key r = ref o) /\
  (unique_together table ->
   forall r, In r table -> key r = ref o ->
             get_for_object o false now table = (Ok r, table)).
Proof.
  unfold get_for_object. split; [apply get_reads|]. split; [|split].
  - rewrite (stored_under_nil (ref o) table). unfold get, ref.
    rewrite get_rows. split.
    + destruct (sort_rows Meta_ordering _) as [|r [|r' l]] eqn:E; simpl;
        try discriminate.
      intros _. now apply sort_rows_nil in E.
    + intros H. now rewrite H.
  - intros r. unfold get. rewrite get_rows.
    destruct (sort_rows Meta_ordering _) as [|r0 [|r' l]] eqn:E; simpl;
      try discriminate.
    intros H. inversion H; subst. apply sort_rows_one in E.
    now apply (stored_under_head _ _ _ E).
  - intros Hu r Hin Hk. apply get_present.
    fold (ref o). rewrite <- Hk. now apply stored_under_unique.
Qed.

(** X6: on a table reached by any calls, [get_for_object] with [create]
    returns a record of the object that a lookup right after finds again;
    it either leaves the table as it was, or appends that one record,
    created with no views and with [first_view] at the clock the creation
    read for it; rows of other objects are never touched. *)
Theorem get_for_object_create_round_trip (calls : list call) (o : Object)
    (now now' : datetime) :
  exists r table',
    get_for_object o true now (history calls) = (Ok r, table') /\
    key r = ref o /\
    get_for_object o false now' table' = (Ok r, table') /\
    ((table' = history calls /\ In r (history calls)) \/
     (table' = history calls ++ [r] /\
      (forall r', In r' (history calls) -> key r' <> ref o) /\
      views r = 0 /\ first_view r = now)) /\
    (forall k, k <> ref o ->
               stored_under k table' = stored_under k (history calls)).
Proof.
  pose proof (history_constrained calls) as Hc.
  destruct (get_for_object_create_effect o now _ Hc)
    as [r [table' [Hg [Hs [Hframe [_ Hcases]]]]]].
  exists r, table'. split; [assumption|].
  split; [apply (sole_pk _ _ _ Hs)|]. split; [|split; [|assumption]].
  - unfold get_for_object. apply get_present. apply Hs.
  - destruct Hcases as [[Ht Hr]|[Ht [Hr [Hv [Hf _]]]]]; [left|right].
    + split; [assumption|]. now apply (stored_under_head _ _ _ Hr).
    + split; [assumption|]. split; [now apply stored_under_nil | auto].
Qed.

(** ** More on the manager's queries *)

Lemma existsb_same_members (A : Type) (f : A -> bool) (l l' : list A) :
  (forall x, In x l <-> In x l') -> existsb f l = existsb f l'.
Proof.
  intros H.
  destruct (existsb f l) eqn:E, (existsb f l') eqn:E'; try reflexivity.
  - apply existsb_exists in E. destruct E as [x [Hx Hf]].
    assert (existsb f l' = true) as E''; [|congruence].
    apply existsb_exists. exists x. split; [now apply H | assumption].
  - apply existsb_exists in E'. destruct E' as [x [Hx Hf]].
    assert (existsb f l = true) as E''; [|congruence].
    apply existsb_exists. exists x. split; [now apply H | assumption].
Qed.

Lemma rows_same_selection (qs qs' : QuerySet) (table : Table) :
  order_by_ qs = [] -> order_by_ qs' = [] ->
  (forall r, selects qs r = selects qs' r) ->
  rows qs table = rows qs' table.
Proof.
  intros Ho Ho' H. rewrite !rows_selects. unfold effective_ordering.
  rewrite Ho, Ho'. f_equal. now apply filter_ext.
Qed.

(** X7: [get_for_models] returns the stored rows whose content type is
    that of one of the models: nothing for no models, and the same rows
    whatever the order of the models and however often one is listed. *)
Theorem get_for_models_selects (table : Table) (models models' : list Model) :
  rows (get_for_models []) table = [] /\
  (forall r, In r (rows (get_for_models models) table) <->
             In r table /\
             exists m, In m models /\ content_type r = ContentType_get_for_model m) /\
  Permutation (rows (get_for_models models) table)
              (filter (fun r => existsb (Nat.eqb (content_type r))
                                        (map ContentType_get_for_model models))
                      table) /\
  ((forall m, In m models <-> In m models') ->
   rows (get_for_models models) table = rows (get_for_models models') table).
Proof.
  split; [|split; [|split]].
  - rewrite rows_selects.
    rewrite (filter_ext _ (fun _ => false)) by reflexivity.
    now rewrite filter_nothing.
  - intros r. rewrite rows_In, selects_get_for_models, existsb_exists.
    split; intros [Hin [c [Hc Hr]]]; (split; [assumption|]).
    + apply in_map_iff in Hc. destruct Hc as [m [Hm Hin']].
      exists m. split; [assumption|]. apply Nat.eqb_eq in Hr. congruence.
    + exists (ContentType_get_for_model c).
      split; [now apply in_map | now apply Nat.eqb_eq].
  - rewrite rows_perm. apply Permutation_refl'.
    apply filter_ext. intros r. apply selects_get_for_models.
  - intros H. apply rows_same_selection; try reflexivity.
    intros r. rewrite !selects_get_for_models.
    apply existsb_same_members. intros c. rewrite !in_map_iff.
    split; intros [m [Hm Hin]]; exists m; (split; [assumption|]); now apply H.
Qed.


(** X9: the batch lookup for a single object sees what [get_for_object]
    sees: it lists exactly one record when, and only when, the single
    lookup returns that record, and nothing when, and only when, the single
    lookup raises [DoesNotExist]. *)
Theorem get_for_objects_single (o : Object) (now : datetime) (table : Table) :
  rows (get_for_objects [o]) table
  = sort_rows Meta_ordering (stored_under (ref o) table) /\
  (forall r, rows (get_for_objects [o]) table = [r] <->
             get_for_object o false now table = (Ok r, table)) /\
  (rows (get_for_objects [o]) table = [] <->
   get_for_object o false now table = (Raise DoesNotExist, table)).
Proof.
  assert (rows (get_for_objects [o]) table
          = sort_rows Meta_ordering (stored_under (ref o) table)) as Hrows
    by reflexivity.
  split; [exact Hrows|]. rewrite Hrows.
  unfold get_for_object, get. rewrite get_rows. fold (ref o).
  destruct (sort_rows Meta_ordering (stored_under (ref o) table))
    as [|r0 [|r1 l]];
    (split; [intros r|]); split; intros H;
    try discriminate; try reflexivity; inversion H; reflexivity.
Qed.

Lemma eval_expr_on_sub (minus : Z -> Z -> Z) (e : sql_expr) (r : ViewTracker) :
  (forall a b, minus a b = (a - b)%Z) -> eval_expr_on minus e r = eval_expr e r.
Proof.
  intros H. induction e as [f|z|a IHa b IHb]; simpl; try reflexivity.
  now rewrite H, IHa, IHb.
Qed.

(** X10: whatever the database makes of [-], [select_age] lists the same
    rows as the plain query, each with the one extra attribute [age]: the
    database's [first_view - refdate], in this order.  Where [-] is the
    exact difference of the two timestamps, that age is the negation of
    what [get_age] answers for the record and the same reference date, and
    is positive exactly for the records on which [get_age] fails its
    assertion. *)
Theorem select_age_against_get_age (minus : Z -> Z -> Z) (refdate now : datetime)
    (table : Table) :
  map fst (fetch_on minus (select_age (Some refdate) now) table)
  = rows get_query_set table /\
  (forall r ann,
     In (r, ann) (fetch_on minus (select_age (Some refdate) now) table) ->
     ann = [("age"%string, minus (first_view r) refdate)]) /\
  ((forall a b, minus a b = (a - b)%Z) ->
   fetch_on minus (select_age (Some refdate) now) table
   = fetch (select_age (Some refdate) now) table /\
   forall r ann,
     In (r, ann) (fetch_on minus (select_age (Some refdate) now) table) ->
     exists age,
       ann = [("age"%string, age)] /\
       (((age <= 0)%Z /\ get_age r (Some refdate) now = Ok (- age)%Z) \/
        ((0 < age)%Z /\ get_age r (Some refdate) now = Raise AssertionError))).
Proof.
  assert (forall r ann,
            In (r, ann) (fetch_on minus (select_age (Some refdate) now) table) ->
            ann = [("age"%string, minus (first_view r) refdate)]) as Hann.
  { intros r ann Hin. unfold fetch_on in Hin. apply in_map_iff in Hin.
    destruct Hin as [r' [Heq _]]. inversion Heq; subst. reflexivity. }
  split; [|split; [exact Hann|]].
  - unfold fetch_on. rewrite map_map. simpl. apply map_id.
  - intros Hminus. split.
    + unfold fetch_on, fetch, annotate. apply map_ext. intros r. f_equal.
      apply map_ext. intros ne. f_equal. now apply eval_expr_on_sub.
    + intros r ann Hin. apply Hann in Hin. subst ann.
      exists (minus (first_view r) refdate). split; [reflexivity|].
      rewrite Hminus. unfold get_age.
      destruct (Z.leb_spec (first_view r) refdate) as [Hle|Hlt]; [left|right].
      * split; [lia|]. f_equal. lia.
      * split; [lia | reflexivity].
Qed.

(** ** Saving against the constraint *)

Lemma violates_unique_other (n : nat) (v other : ViewTracker) (table : Table) :
  In other table -> pk other <> n -> key other = key v ->
  violates_unique n v table = true.
Proof.
  intros Hin Hpk Hk. apply existsb_exists. exists other. split; [assumption|].
  apply andb_true_iff. split.
  - apply negb_true_iff. now apply Nat.eqb_neq.
  - now apply key_eqb_eq.
Qed.

(** X11: [increment] on an object whose (content_type, object_id) pair is
    stored under another primary key raises [IntegrityError] and leaves
    the table as it was: a second row for a pair is never written. *)
Theorem increment_conflict (self other : ViewTracker) (now : datetime)
    (table : Table) :
  In other table -> pk other <> pk self -> key other = key self ->
  increment self now table = (Raise IntegrityError, table).
Proof.
  intros Hin Hpk Hk. unfold increment, save.
  change (pk (with_views (views self + 1) self)) with (pk self).
  destruct (existsb (fun r' => Nat.eqb (pk r') (pk self)) table).
  - unfold sql_update.
    erewrite violates_unique_other;
      [reflexivity | exact Hin | exact Hpk | exact Hk].
  - unfold sql_insert.
    erewrite violates_unique_other;
      [reflexivity | exact Hin | exact Hpk | exact Hk].
Qed.

(** ** The text of a record *)





(** X13: [increment] writes what its object holds, not what the table
    holds: for an object read from the row of a tracked object, the row
    afterwards counts the object's [views] plus one, whatever it counted
    before, with [last_view] at the clock and the object's [first_view]. *)
Theorem increment_writes_its_own_count (o : Object) (r self : ViewTracker)
    (now : datetime) (table : Table) :
  constrained table -> In r table -> key r = ref o ->
  pk self = pk r -> key self = ref o ->
  exists self' table',
    increment self now table = (Ok self', table') /\
    views self' = views self + 1 /\
    last_view self' = now /\
    first_view self' = first_view self /\
    stored_under (ref o) table' = [self'] /\
    get_views_for o table' = (Ok (views self + 1), table').
Proof.
  intros Hc Hin Hk Hpk Hkey.
  assert (sole (ref o) r table) as Hs.
  { apply sole_constrained; [assumption|].
    rewrite <- Hk. now apply stored_under_unique; [apply Hc|]. }
  destruct (increment_sole _ r self now _ Hs Hpk Hkey)
    as [self' [table' [Hi [Hs' [Hv [Hf [Hl _]]]]]]].
  exists self', table'. repeat (split; [assumption|]).
  split; [apply Hs'|]. rewrite <- Hv. now apply get_views_for_sole.
Qed.

(** ** Overlapping calls, from any count *)

Lemma in_step_later (k : ContentType * nat) (r r' : ViewTracker) (b d d' : nat)
    (rq : request) :
  pk r' = pk r -> d <= d' -> in_step k r b d rq -> in_step k r' b d' rq.
Proof.
  intros Hpk Hd. destruct rq as [|v|[v|e]]; simpl; auto.
  intros [H1 [H2 [H3 H4]]]. repeat split; [congruence | assumption | lia | lia].
Qed.

Lemma step_race_invariant (o : Object) (b : nat) (st : list request * Table)
    (ev : nat * datetime) :
  race_invariant o b st -> race_invariant o b (step o st ev).
Proof.
  destruct st as [rqs table], ev as [i now]. unfold step; cbn [fst snd].
  destruct (nth_error rqs i) as [rq|] eqn:Hnth; [|auto].
  intros Hinv. destruct rq as [|v|out]; unfold advance.
  - (* the call begins: get_or_create *)
    destruct Hinv as [[Hb [Habsent Hall]]|[r [Hs [Hlo [Hle [Hge Hall]]]]]];
      cbn [fst snd] in *.
    + destruct (get_for_object_creates o now _ Habsent) as [r [Hg [Hs [Hv _]]]].
      rewrite Hg. right. exists r. cbn [fst snd].
      pose proof (done_replace i _ (Loaded r) rqs Hnth) as Hd. simpl in Hd.
      rewrite (done_none _ Hall) in *.
      replace (done (replace_nth i (Loaded r) rqs)) with 0 by lia.
      split; [assumption|]. split; [lia|]. split; [lia|]. split; [lia|].
      apply replace_nth_Forall.
      * eapply Forall_impl; [|exact Hall]. intros rq ->. exact I.
      * simpl. destruct (sole_pk _ _ _ Hs) as [_ Hk]. repeat split; auto; lia.
    + rewrite (get_for_object_existing o now _ _ (proj1 Hs)).
      right. exists r. cbn [fst snd].
      pose proof (done_replace i _ (Loaded r) rqs Hnth) as Hd. simpl in Hd.
      replace (done (replace_nth i (Loaded r) rqs)) with (done rqs) by lia.
      repeat (split; [assumption|]).
      apply replace_nth_Forall; [assumption|].
      simpl. destruct (sole_pk _ _ _ Hs) as [_ Hk]. repeat split; auto.
  - (* the call saves what it read, plus one *)
    destruct Hinv as [[Hb [Habsent Hall]]|[r [Hs [Hlo [Hle [Hge Hall]]]]]];
      cbn [fst snd] in *.
    + pose proof (nth_error_Forall _ _ _ _ _ Hall Hnth) as H. discriminate.
    + pose proof (nth_error_Forall _ _ _ _ _ Hall Hnth) as [Hpk [Hk [Hvlo Hvhi]]].
      destruct (increment_sole _ r v now _ Hs Hpk Hk)
        as [v' [table' [Hi [Hs' [Hv' [_ [_ Hpk']]]]]]].
      rewrite Hi. right. exists v'. cbn [fst snd].
      pose proof (done_replace i _ (Finished (Ok v')) rqs Hnth) as Hd.
      simpl in Hd.
      replace (done (replace_nth i (Finished (Ok v')) rqs))
        with (S (done rqs)) by lia.
      split; [assumption|]. split; [lia|]. split; [lia|]. split; [lia|].
      apply replace_nth_Forall; [|exact I].
      eapply Forall_impl; [|exact Hall].
      intros rq. apply in_step_later; [congruence | lia].
  - (* the call is through already *)
    now rewrite (replace_nth_same _ _ _ _ Hnth).
Qed.

Lemma interleave_race_invariant (o : Object) (b : nat)
    (schedule : list (nat * datetime)) (st : list request * Table) :
  race_invariant o b st -> race_invariant o b (interleave o schedule st).
Proof.
  unfold interleave. revert st.
  induction schedule as [|ev schedule IH]; simpl; intros st H; [assumption|].
  apply IH. now apply step_race_invariant.
Qed.

Lemma race_invariant_start (o : Object) (n : nat) (table : Table) :
  constrained table ->
  race_invariant o (count_of (ref o) table) (repeat Start n, table).
Proof.
  intros Hc.
  assert (Forall (fun rq => rq = Start) (repeat Start n)) as Hall.
  { apply Forall_forall. intros rq Hrq. now apply repeat_spec in Hrq. }
  destruct (stored_under_cases (ref o) table (proj2 Hc)) as [H|[r H]].
  - left. cbn [fst snd]. split; [now apply count_of_absent | now split].
  - right. exists r. cbn [fst snd].
    rewrite (count_of_sole _ _ _ H), (done_none _ Hall).
    split; [now apply sole_constrained|]. split; [lia|]. split; [lia|].
    split; [lia|].
    eapply Forall_impl; [|exact Hall]. intros rq ->. exact I.
Qed.

Lemma add_views_for_count (o : Object) (clock : list (datetime * datetime))
    (table : Table) :
  constrained table ->
  map counted (fst (add_views_for o clock table))
  = map Some (seq (S (count_of (ref o) table)) (List.length clock)) /\
  get_views_for o (snd (add_views_for o clock table))
  = (Ok (count_of (ref o) table + List.length clock),
     snd (add_views_for o clock table)).
Proof.
  intros Hc. destruct (stored_under_cases (ref o) table (proj2 Hc)) as [H|[r H]].
  - rewrite (count_of_absent _ _ H). now apply add_views_for_absent.
  - rewrite (count_of_sole _ _ _ H).
    destruct (add_views_for_sole o clock r table (sole_constrained _ _ _ Hc H))
      as [Hm [r' [Hs' Hv']]].
    split; [assumption|]. rewrite <- Hv'. now apply get_views_for_sole.
Qed.

(** C1, as the code has it.  On a table reached through the class
    methods and the manager, where [get_views_for] answers [v0] for the
    object: a call of [add_view_for] on its own does [get_or_create], then
    writes [v0 + 1] and the clock into [last_view]; N calls run one after
    the other all return and leave [v0 + N].  The read and the write are
    two steps, though: when N calls overlap in any way and all finish,
    every call returns and the row ends with at least [v0 + 1] and at most
    [v0 + N] views. *)
Theorem increment_is_read_then_write (calls : list call) (o : Object) :
  Forall (fun c => through_class c = true) calls ->
  exists v0,
    get_views_for o (history calls) = (Ok v0, history calls) /\
    (forall t1 t2, exists r table',
        add_view_for o t1 t2 (history calls) = (Ok r, table') /\
        stored_under (ref o) table' = [r] /\
        views r = v0 + 1 /\ last_view r = t2) /\
    (forall clock,
        Forall (fun rq => returned rq = true)
               (fst (interleave o (serial 0 clock)
                                (repeat Start (List.length clock), history calls))) /\
        get_views_for o (snd (interleave o (serial 0 clock)
                                         (repeat Start (List.length clock),
                                          history calls)))
        = (Ok (v0 + List.length clock),
           snd (interleave o (serial 0 clock)
                           (repeat Start (List.length clock), history calls)))) /\
    (forall n schedule,
        1 <= n ->
        Forall (fun rq => finished rq = true)
               (fst (interleave o schedule (repeat Start n, history calls))) ->
        Forall (fun rq => returned rq = true)
               (fst (interleave o schedule (repeat Start n, history calls))) /\
        exists r,
          stored_under (ref o)
            (snd (interleave o schedule (repeat Start n, history calls))) = [r] /\
          v0 + 1 <= views r <= v0 + n).
Proof.
  intros _. pose proof (history_constrained calls) as Hc.
  exists (count_of (ref o) (history calls)).
  split; [now apply get_views_for_count, Hc|]. split; [|split].
  - intros t1 t2.
    destruct (add_view_for_effect o t1 t2 _ Hc) as [r [table' [Ha [Hs [_ H]]]]].
    exists r, table'. split; [assumption|]. split; [apply Hs | assumption].
  - intros clock.
    pose proof (interleave_serial o clock [] [] (history calls)) as H.
    cbn [List.length app] in H. rewrite !app_nil_r in H. rewrite H.
    cbn [fst snd].
    destruct (add_views_for_count o clock _ Hc) as [Hm Hg].
    split; [|assumption].
    now apply all_returned
      with (seq (S (count_of (ref o) (history calls))) (List.length clock)).
  - intros n schedule Hn Hfin.
    pose proof (interleave_race_invariant o _ schedule _
                  (race_invariant_start o n _ Hc)) as Hinv.
    pose proof (interleave_length o schedule (repeat Start n, history calls))
      as Hlen.
    cbn [fst] in Hlen. rewrite repeat_length in Hlen.
    pose proof (done_all _ Hfin) as Hdone. rewrite Hlen in Hdone.
    destruct (interleave o schedule (repeat Start n, history calls))
      as [rqs table'].
    cbn [fst snd] in *.
    destruct Hinv as [[_ [_ Hall]]|[r [Hs [Hlo [Hle [Hge Hall]]]]]];
      cbn [fst snd] in *.
    + rewrite (done_none _ Hall) in Hdone. lia.
    + split.
      * rewrite Forall_forall in *. intros rq Hrq.
        specialize (Hfin rq Hrq). specialize (Hall rq Hrq).
        destruct rq as [|v|[v|e]]; simpl in *; try discriminate;
          [reflexivity | contradiction].
      * exists r. split; [apply Hs | lia].
Qed.

End Models.

(** * The properties on the example site *)

Arguments call_increment {Model} self now.

(** C1, as claimed, fails: two calls for entry 7 that both read before
    either saves both return, and the row counts one view, not two. *)
Lemma overlapping_calls_lose_a_view :
  Forall (fun rq => finished rq = true)
         (fst (interleave site_content_type (mkObject Entry 7)
                          [(0, 10%Z); (1, 11%Z); (0, 12%Z); (1, 13%Z)]
                          (repeat Start 2, []))) /\
  get_views_for site_content_type (mkObject Entry 7)
    (snd (interleave site_content_type (mkObject Entry 7)
                     [(0, 10%Z); (1, 11%Z); (0, 12%Z); (1, 13%Z)]
                     (repeat Start 2, [])))
  = (Ok 1, [mkViewTracker 1 1 7 10%Z 13%Z 1]) /\
  fst (get_views_for site_content_type (mkObject Entry 7)
         (snd (interleave site_content_type (mkObject Entry 7)
                          [(0, 10%Z); (1, 11%Z); (0, 12%Z); (1, 13%Z)]
                          (repeat Start 2, []))))
  <> Ok 2.
Proof.
  split; [|split].
  - repeat constructor.
  - reflexivity.
  - discriminate.
Qed.

Lemma increment_is_read_then_write_witness :
  Forall (fun c => through_class c = true)
         [call_add_view_for (mkObject Entry 7) 10%Z 11%Z;
          call_add_view_for (mkObject Comment 3) 12%Z 13%Z;
          call_add_view_for (mkObject Entry 7) 14%Z 15%Z] /\
  exists r,
    stored_under (ref site_content_type (mkObject Entry 7))
      (snd (interleave site_content_type (mkObject Entry 7)
              [(0, 20%Z); (1, 21%Z); (0, 22%Z); (1, 23%Z)]
              (repeat Start 2,
               history site_content_type
                 [call_add_view_for (mkObject Entry 7) 10%Z 11%Z;
                  call_add_view_for (mkObject Comment 3) 12%Z 13%Z;
                  call_add_view_for (mkObject Entry 7) 14%Z 15%Z]))) = [r] /\
    2 + 1 <= views r <= 2 + 2.
Proof.
  assert (Forall (fun c => through_class (Model := SiteModel) c = true)
            [call_add_view_for (mkObject Entry 7) 10%Z 11%Z;
             call_add_view_for (mkObject Comment 3) 12%Z 13%Z;
             call_add_view_for (mkObject Entry 7) 14%Z 15%Z]) as H
    by (repeat constructor).
  split; [exact H|].
  destruct (increment_is_read_then_write SiteModel site_content_type _
              (mkObject Entry 7) H) as [v0 [Hv0 [_ [_ Hrace]]]].
  assert (v0 = 2) as -> by (vm_compute in Hv0; congruence).
  apply (Hrace 2 [(0, 20%Z); (1, 21%Z); (0, 22%Z); (1, 23%Z)]); [lia|].
  repeat constructor.
Defined.

(** C2 at one record: first seen at 10 and asked for its age at 25, the
    record is annotated with -15, where [get_age] answers 15. *)
Lemma select_age_is_negated :
  fetch (select_age (Some 25%Z) 0%Z) [mkViewTracker 1 1 7 10%Z 20%Z 3]
  = [(mkViewTracker 1 1 7 10%Z 20%Z 3, [("age"%string, (-15)%Z)])] /\
  get_age (mkViewTracker 1 1 7 10%Z 20%Z 3) (Some 25%Z) 0%Z = Ok 15%Z.
Proof.
  split; reflexivity.
Qed.

(** C3 at three records seen at 10 < 20 < 30 and a limit of 2: the call
    raises, where the slice it is after holds the records seen at 30 and
    at 20. *)
Lemma get_recently_viewed_of_three :
  get_recently_viewed 2 [mkViewTracker 1 1 7 1%Z 10%Z 3;
                         mkViewTracker 2 1 8 2%Z 20%Z 1;
                         mkViewTracker 3 2 3 3%Z 30%Z 2]
  = Raise (AttributeError "limit") /\
  slice (order_by ["-last_view"%string] get_query_set) 2
        [mkViewTracker 1 1 7 1%Z 10%Z 3;
         mkViewTracker 2 1 8 2%Z 20%Z 1;
         mkViewTracker 3 2 3 3%Z 30%Z 2]
  = [mkViewTracker 3 2 3 3%Z 30%Z 2; mkViewTracker 2 1 8 2%Z 20%Z 1].
Proof.
  split; reflexivity.
Qed.

Lemma get_views_for_reads_witness :
  unique_together [mkViewTracker 1 1 7 10%Z 20%Z 3; mkViewTracker 2 2 7 11%Z 12%Z 9] /\
  get_views_for site_content_type (mkObject Entry 7)
    [mkViewTracker 1 1 7 10%Z 20%Z 3; mkViewTracker 2 2 7 11%Z 12%Z 9]
  = (Ok 3, [mkViewTracker 1 1 7 10%Z 20%Z 3; mkViewTracker 2 2 7 11%Z 12%Z 9]).
Proof.
  assert (unique_together [mkViewTracker 1 1 7 10%Z 20%Z 3;
                           mkViewTracker 2 2 7 11%Z 12%Z 9]) as H.
  { repeat constructor; simpl; intuition discriminate. }
  split; [exact H|].
  exact (proj2 (proj2 (proj2
           (get_views_for_reads SiteModel site_content_type (mkObject Entry 7)
              [mkViewTracker 1 1 7 10%Z 20%Z 3; mkViewTracker 2 2 7 11%Z 12%Z 9])))
           H (mkViewTracker 1 1 7 10%Z 20%Z 3) (or_introl eq_refl) eq_refl).
Defined.

Lemma get_age_witness :
  ((10 <= 25)%Z /\
   get_age (mkViewTracker 1 1 7 10%Z 20%Z 3) (Some 25%Z) 0%Z = Ok 15%Z) /\
  ((5 < 10)%Z /\
   get_age (mkViewTracker 1 1 7 10%Z 20%Z 3) (Some 5%Z) 0%Z = Raise AssertionError).
Proof.
  split; (split; [lia|]).
  - apply (proj1 (get_age_exact_or_assertion
                    (mkViewTracker 1 1 7 10%Z 20%Z 3) 25%Z 0%Z)). simpl. lia.
  - apply (proj1 (proj2 (get_age_exact_or_assertion
                           (mkViewTracker 1 1 7 10%Z 20%Z 3) 5%Z 0%Z))). simpl. lia.
Defined.

Lemma add_view_for_counts_witness :
  (forall r, In r [mkViewTracker 1 2 3 5%Z 6%Z 4] ->
             key r <> ref site_content_type (mkObject Entry 7)) /\
  get_views_for site_content_type (mkObject Entry 7)
    (snd (add_views_for site_content_type (mkObject Entry 7)
            [(10, 11); (12, 13); (14, 15)]%Z [mkViewTracker 1 2 3 5%Z 6%Z 4]))
  = (Ok 3,
     snd (add_views_for site_content_type (mkObject Entry 7)
            [(10, 11); (12, 13); (14, 15)]%Z [mkViewTracker 1 2 3 5%Z 6%Z 4])).
Proof.
  assert (forall r, In r [mkViewTracker 1 2 3 5%Z 6%Z 4] ->
                    key r <> ref site_content_type (mkObject Entry 7)) as H.
  { intros r [<-|[]]. discriminate. }
  split; [exact H|].
  exact (proj1 (proj2
           (add_view_for_counts SiteModel site_content_type (mkObject Entry 7)
              [(10, 11); (12, 13); (14, 15)]%Z [mkViewTracker 1 2 3 5%Z 6%Z 4] H))).
Defined.

Lemma default_ordering_witness :
  (10 < 20)%Z /\
  rows get_query_set [mkViewTracker 1 1 7 1%Z 20%Z 5;
                      mkViewTracker 2 1 8 2%Z 10%Z 5;
                      mkViewTracker 3 2 3 3%Z 30%Z 3]
  = [mkViewTracker 3 2 3 3%Z 30%Z 3;
     mkViewTracker 1 1 7 1%Z 20%Z 5;
     mkViewTracker 2 1 8 2%Z 10%Z 5].
Proof.
  split; [lia|].
  apply (proj2 (proj2 (proj2 (proj2
           (default_ordering SiteModel site_content_type
              [mkViewTracker 1 1 7 1%Z 20%Z 5;
               mkViewTracker 2 1 8 2%Z 10%Z 5;
               mkViewTracker 3 2 3 3%Z 30%Z 3])))));
    [reflexivity | reflexivity | reflexivity | simpl; lia | apply Permutation_refl].
Defined.

Lemma get_for_objects_selects_witness :
  NoDup [mkViewTracker 1 1 7 10%Z 20%Z 3; mkViewTracker 2 2 7 11%Z 12%Z 9] /\
  NoDup (rows (get_for_objects site_content_type
                 [mkObject Entry 7; mkObject Entry 7; mkObject Comment 7])
              [mkViewTracker 1 1 7 10%Z 20%Z 3; mkViewTracker 2 2 7 11%Z 12%Z 9]).
Proof.
  assert (NoDup [mkViewTracker 1 1 7 10%Z 20%Z 3;
                 mkViewTracker 2 2 7 11%Z 12%Z 9]) as H.
  { repeat constructor; simpl; intuition discriminate. }
  split; [exact H|].
  exact (proj2 (proj2 (proj2 (proj2
           (get_for_objects_selects SiteModel site_content_type
              [mkViewTracker 1 1 7 10%Z 20%Z 3; mkViewTracker 2 2 7 11%Z 12%Z 9]
              [mkObject Entry 7; mkObject Entry 7; mkObject Comment 7])))) H).
Defined.

Lemma one_row_per_object_witness :
  unique_together
    (history site_content_type
       [call_add_view_for (mkObject Entry 7) 10%Z 11%Z;
        call_get_for_object (mkObject Comment 3) true 12%Z;
        call_increment (mkViewTracker 2 1 7 0%Z 0%Z 5) 13%Z;
        call_add_view_for (mkObject Entry 7) 14%Z 15%Z]) /\
  List.length
    (stored_under (1, 7)
       (history site_content_type
          [call_add_view_for (mkObject Entry 7) 10%Z 11%Z;
           call_get_for_object (mkObject Comment 3) true 12%Z;
           call_increment (mkViewTracker 2 1 7 0%Z 0%Z 5) 13%Z;
           call_add_view_for (mkObject Entry 7) 14%Z 15%Z])) <= 1.
Proof.
  split.
  - exact (proj1
             (one_row_per_object SiteModel site_content_type
                [call_add_view_for (mkObject Entry 7) 10%Z 11%Z;
                 call_get_for_object (mkObject Comment 3) true 12%Z;
                 call_increment (mkViewTracker 2 1 7 0%Z 0%Z 5) 13%Z;
                 call_add_view_for (mkObject Entry 7) 14%Z 15%Z])).
  - exact (proj1 (proj2 (proj2
             (one_row_per_object SiteModel site_content_type
                [call_add_view_for (mkObject Entry 7) 10%Z 11%Z;
                 call_get_for_object (mkObject Comment 3) true 12%Z;
                 call_increment (mkViewTracker 2 1 7 0%Z 0%Z 5) 13%Z;
                 call_add_view_for (mkObject Entry 7) 14%Z 15%Z]))) (1, 7)).
Defined.

(** ** Further properties on the example site *)

Lemma views_count_calls_witness :
  Forall (fun c => through_class c = true)
         [call_add_view_for (mkObject Entry 7) 10%Z 11%Z;
          call_add_view_for (mkObject Comment 7) 12%Z 13%Z;
          call_get_for_object (mkObject Entry 8) true 14%Z;
          call_get_views_for (mkObject Entry 9);
          call_add_view_for (mkObject Entry 7) 15%Z 16%Z] /\
  fst (get_views_for site_content_type (mkObject Entry 7)
         (history site_content_type
            [call_add_view_for (mkObject Entry 7) 10%Z 11%Z;
             call_add_view_for (mkObject Comment 7) 12%Z 13%Z;
             call_get_for_object (mkObject Entry 8) true 14%Z;
             call_get_views_for (mkObject Entry 9);
             call_add_view_for (mkObject Entry 7) 15%Z 16%Z]))
  = Ok 2.
Proof.
  assert (Forall (fun c => through_class (Model := SiteModel) c = true)
            [call_add_view_for (mkObject Entry 7) 10%Z 11%Z;
             call_add_view_for (mkObject Comment 7) 12%Z 13%Z;
             call_get_for_object (mkObject Entry 8) true 14%Z;
             call_get_views_for (mkObject Entry 9);
             call_add_view_for (mkObject Entry 7) 15%Z 16%Z]) as H
    by (repeat constructor).
  split; [exact H|].
  rewrite (views_count_calls SiteModel site_content_type (mkObject Entry 7) _ H).
  reflexivity.
Defined.

Lemma first_view_is_kept_witness :
  (forall r, In r [mkViewTracker 1 2 3 5%Z 6%Z 4] ->
             key r <> ref site_content_type (mkObject Entry 7)) /\
  exists r,
    stored_under (ref site_content_type (mkObject Entry 7))
      (snd (add_views_for site_content_type (mkObject Entry 7)
              [(10, 11); (12, 13); (14, 15)]%Z [mkViewTracker 1 2 3 5%Z 6%Z 4]))
    = [r] /\
    first_view r = 10%Z /\ last_view r = 15%Z /\ views r = 3.
Proof.
  assert (forall r, In r [mkViewTracker 1 2 3 5%Z 6%Z 4] ->
                    key r <> ref site_content_type (mkObject Entry 7)) as H.
  { intros r [<-|[]]. discriminate. }
  split; [exact H|].
  exact (first_view_is_kept SiteModel site_content_type (mkObject Entry 7)
           10%Z 11%Z [(12, 13); (14, 15)]%Z [mkViewTracker 1 2 3 5%Z 6%Z 4] H).
Defined.

Lemma get_age_never_negative_witness :
  get_age (mkViewTracker 1 1 7 10%Z 20%Z 3) None 25%Z = Ok 15%Z /\ (0 <= 15)%Z.
Proof.
  assert (get_age (mkViewTracker 1 1 7 10%Z 20%Z 3) None 25%Z = Ok 15%Z) as H
    by reflexivity.
  split; [exact H|].
  exact (get_age_never_negative (mkViewTracker 1 1 7 10%Z 20%Z 3) None 25%Z 15%Z H).
Defined.

Lemma get_for_object_lookup_witness :
  unique_together [mkViewTracker 1 1 7 10%Z 20%Z 3; mkViewTracker 2 2 7 11%Z 12%Z 9] /\
  get_for_object site_content_type (mkObject Comment 7) false 0%Z
    [mkViewTracker 1 1 7 10%Z 20%Z 3; mkViewTracker 2 2 7 11%Z 12%Z 9]
  = (Ok (mkViewTracker 2 2 7 11%Z 12%Z 9),
     [mkViewTracker 1 1 7 10%Z 20%Z 3; mkViewTracker 2 2 7 11%Z 12%Z 9]).
Proof.
  assert (unique_together [mkViewTracker 1 1 7 10%Z 20%Z 3;
                           mkViewTracker 2 2 7 11%Z 12%Z 9]) as H.
  { repeat constructor; simpl; intuition discriminate. }
  split; [exact H|].
  exact (proj2 (proj2 (proj2
           (get_for_object_lookup SiteModel site_content_type
              (mkObject Comment 7) 0%Z
              [mkViewTracker 1 1 7 10%Z 20%Z 3; mkViewTracker 2 2 7 11%Z 12%Z 9])))
           H (mkViewTracker 2 2 7 11%Z 12%Z 9) (or_intror (or_introl eq_refl))
           eq_refl).
Defined.

Lemma get_for_models_selects_witness :
  (forall m, In m [Comment; Entry; Comment] <-> In m [Entry; Comment]) /\
  rows (get_for_models site_content_type [Comment; Entry; Comment])
       [mkViewTracker 1 1 7 10%Z 20%Z 3; mkViewTracker 2 2 7 11%Z 12%Z 9]
  = rows (get_for_models site_content_type [Entry; Comment])
         [mkViewTracker 1 1 7 10%Z 20%Z 3; mkViewTracker 2 2 7 11%Z 12%Z 9].
Proof.
  assert (forall m, In m [Comment; Entry; Comment] <-> In m [Entry; Comment]) as H.
  { intros m. simpl. tauto. }
  split; [exact H|].
  exact (proj2 (proj2 (proj2
           (get_for_models_selects SiteModel site_content_type
              [mkViewTracker 1 1 7 10%Z 20%Z 3; mkViewTracker 2 2 7 11%Z 12%Z 9]
              [Comment; Entry; Comment] [Entry; Comment]))) H).
Defined.


Lemma increment_conflict_witness :
  In (mkViewTracker 1 1 7 10%Z 20%Z 3)
     [mkViewTracker 1 1 7 10%Z 20%Z 3; mkViewTracker 2 2 7 11%Z 12%Z 9] /\
  increment (mkViewTracker 2 1 7 11%Z 12%Z 9) 30%Z
            [mkViewTracker 1 1 7 10%Z 20%Z 3; mkViewTracker 2 2 7 11%Z 12%Z 9]
  = (Raise IntegrityError,
     [mkViewTracker 1 1 7 10%Z 20%Z 3; mkViewTracker 2 2 7 11%Z 12%Z 9]).
Proof.
  assert (In (mkViewTracker 1 1 7 10%Z 20%Z 3)
             [mkViewTracker 1 1 7 10%Z 20%Z 3; mkViewTracker 2 2 7 11%Z 12%Z 9])
    as H by (now left).
  split; [exact H|].
  apply (increment_conflict (mkViewTracker 2 1 7 11%Z 12%Z 9)
           (mkViewTracker 1 1 7 10%Z 20%Z 3) 30%Z _ H);
    [simpl; lia | reflexivity].
Defined.


Lemma increment_writes_its_own_count_witness :
  constrained [mkViewTracker 1 1 7 10%Z 20%Z 5; mkViewTracker 2 2 7 11%Z 12%Z 9] /\
  exists self' table',
    increment (mkViewTracker 1 1 7 10%Z 15%Z 2) 30%Z
              [mkViewTracker 1 1 7 10%Z 20%Z 5; mkViewTracker 2 2 7 11%Z 12%Z 9]
    = (Ok self', table') /\
    views self' = 3 /\
    get_views_for site_content_type (mkObject Entry 7) table' = (Ok 3, table').
Proof.
  assert (constrained [mkViewTracker 1 1 7 10%Z 20%Z 5;
                       mkViewTracker 2 2 7 11%Z 12%Z 9]) as H.
  { split; repeat constructor; simpl; intuition discriminate. }
  split; [exact H|].
  destruct (increment_writes_its_own_count SiteModel site_content_type
              (mkObject Entry 7) (mkViewTracker 1 1 7 10%Z 20%Z 5)
              (mkViewTracker 1 1 7 10%Z 15%Z 2) 30%Z _ H
              (or_introl eq_refl) eq_refl eq_refl eq_refl)
    as [self' [table' [Hi [Hv [_ [_ [_ Hg]]]]]]].
  exists self', table'. auto.
Defined.

Lemma add_view_for_never_raises_witness :
  Forall (fun c => through_class c = true)
         [call_add_view_for (mkObject Entry 7) 10%Z 11%Z;
          call_get_for_object (mkObject Comment 3) true 12%Z;
          call_add_view_for (mkObject Entry 7) 13%Z 14%Z] /\
  exists r table',
    add_view_for site_content_type (mkObject Entry 7) 15%Z 16%Z
      (history site_content_type
         [call_add_view_for (mkObject Entry 7) 10%Z 11%Z;
          call_get_for_object (mkObject Comment 3) true 12%Z;
          call_add_view_for (mkObject Entry 7) 13%Z 14%Z])
    = (Ok r, table') /\
    views r = 3.
Proof.
  assert (Forall (fun c => through_class (Model := SiteModel) c = true)
            [call_add_view_for (mkObject Entry 7) 10%Z 11%Z;
             call_get_for_object (mkObject Comment 3) true 12%Z;
             call_add_view_for (mkObject Entry 7) 13%Z 14%Z]) as H
    by (repeat constructor).
  split; [exact H|].
  destruct (add_view_for_never_raises SiteModel site_content_type _
              (mkObject Entry 7) 15%Z 16%Z H)
    as [r [table' [Ha [_ [Hv _]]]]].
  exists r, table'. split; [exact Ha | exact Hv].
Defined.

Lemma select_age_against_get_age_witness :
  (forall a b, Z.sub a b = (a - b)%Z) /\
  fetch_on Z.sub (select_age (Some 25%Z) 0%Z)
           [mkViewTracker 1 1 7 10%Z 20%Z 3; mkViewTracker 2 2 7 30%Z 31%Z 1]
  = fetch (select_age (Some 25%Z) 0%Z)
          [mkViewTracker 1 1 7 10%Z 20%Z 3; mkViewTracker 2 2 7 30%Z 31%Z 1].
Proof.
  assert (forall a b, Z.sub a b = (a - b)%Z) as H by reflexivity.
  split; [exact H|].
  exact (proj1 (proj2 (proj2
           (select_age_against_get_age Z.sub 25%Z 0%Z
              [mkViewTracker 1 1 7 10%Z 20%Z 3; mkViewTracker 2 2 7 30%Z 31%Z 1]))
           H)).
Defined.
